(** * PokeSetSmith: the stat engine of [showdown.py]

    A shallow embedding of the computational core of [src/showdown.py]
    (the stat formula [calc_stat], the nature table, the brute-force
    reverse solver, the EV clamp and the name validation) together with
    the properties of that core.

    Modelling conventions.
    - Python [int] is [Z]; [//] with a positive divisor is [Z.div].
    - Python [float] is IEEE binary64, i.e. Rocq's primitive [float];
      [*] and [+] on floats are [PrimFloat.mul] and [PrimFloat.add]
      (round to nearest, ties to even).  Conversions between [int] and
      [float] go through [SpecFloat], the executable specification of
      binary64 shipped with the library.
    - A Python exception is a value [Raise e] of the type [result].
    - [str] is [string], the UTF-8 bytes of the text.  The module [Str]
      gives [lower], [strip] and [title] on ASCII text; the definitions
      whose name ends in [_for] take these functions as arguments, and
      what is proved of them holds of the interpreter's own.
    - A [dict] whose iteration order matters is an association list; a
      [dict] used only for lookups is a [gmap]. *)

From Stdlib Require Import ZArith QArith Qround Floats Ascii String.
From stdpp Require Import base option list gmap strings.
From Equations Require Import Equations.

Set Warnings "-inexact-float".
Local Open Scope Z_scope.

(** ** Exceptions *)

Inductive exn : Set :=
  | OverflowError
  | ValueError
  | ZeroDivisionError
  | KeyError
  | EOFError.

Inductive result (A : Type) : Type :=
  | Ok (a : A)
  | Raise (e : exn).
Arguments Ok {A} a.
Arguments Raise {A} e.

#[global] Instance result_ret : MRet result := fun _ a => Ok a.
#[global] Instance result_bind : MBind result := fun _ _ k m =>
  match m with
  | Ok a => k a
  | Raise e => Raise e
  end.

Definition returns {A} (m : result A) : Prop := exists a, m = Ok a.

(** ** Python numerics *)

Module Py.

(** [float(n)] for an [int] [n], as done implicitly by [n * x] when [x] is
    a float: the nearest binary64 value, [OverflowError] when there is
    none. *)
Definition float_of_int (n : Z) : result float :=
  match binary_normalize prec emax n 0 false with
  | S754_infinity _ => Raise OverflowError
  | sf => Ok (SF2Prim sf)
  end.

(** [a / b] on two [int]s: the exact quotient rounded once to binary64. *)
Definition truediv (a b : Z) : result float :=
  if b =? 0 then Raise ZeroDivisionError
  else if a =? 0 then Ok (if b <? 0 then (-0)%float else 0%float)
  else
    let negate := xorb (a <? 0) (b <? 0) in
    let '(q, e, l) := SFdiv_core_binary prec emax (Z.abs a) 0 (Z.abs b) 0 in
    match binary_round_aux prec emax negate q e l with
    | S754_infinity _ => Raise OverflowError
    | sf => Ok (SF2Prim sf)
    end.

(** [math.floor(x)] on a float. *)
Definition floor (x : float) : result Z :=
  match Prim2SF x with
  | S754_zero _ => Ok 0
  | S754_finite s m e => Ok (Z.shiftl (cond_Zopp s (Z.pos m)) e)
  | S754_infinity _ => Raise OverflowError
  | S754_nan => Raise ValueError
  end.

(** [range(start, stop)] and [range(start, stop, step)] for [step > 0]. *)
Definition range (start stop : Z) : list Z := seqZ start (stop - start).

Definition range_step (start stop step : Z) : list Z :=
  (fun k => start + step * k) <$> seqZ 0 ((stop - start + step - 1) / step).

(** A [for] loop whose body threads a state and may raise. *)
Fixpoint for_in {A S : Type} (xs : list A) (body : A -> S -> result S) (s : S)
  : result S :=
  match xs with
  | [] => Ok s
  | x :: xs' =>
      match body x s with
      | Ok s' => for_in xs' body s'
      | Raise e => Raise e
      end
  end.

End Py.

(** ** Stat math and reverse calculation *)

(** [calc_stat], lines 281-286. *)
Definition calc_stat (base iv ev level : Z) (nature_mult : float) (is_hp : bool)
  : result Z :=
  if is_hp then
    q ← Py.truediv ((2 * base + iv + ev / 4) * level) 100;
    r ← Py.floor q;
    mret (r + level + 10)
  else
    q ← Py.truediv ((2 * base + iv + ev / 4) * level) 100;
    r ← Py.floor q;
    let inner := r + 5 in
    x ← Py.float_of_int inner;
    Py.floor (x * nature_mult + 1e-9)%float.

(** A [dict] display or comprehension enters its items in order, and a
    later item overrides an earlier one that has the same key. *)
Definition dict_of_items {V} (items : list (string * V)) : gmap string V :=
  foldl (fun m kv => <[kv.1 := kv.2]> m) ∅ items.

(** [NATURE_EFFECTS], lines 68-74: nature -> (increased stat, decreased stat). *)
Definition NATURE_EFFECTS : gmap string (string * string) :=
  dict_of_items
    [ ("Lonely",  ("atk","def")); ("Brave",   ("atk","spe"));
      ("Adamant", ("atk","spa")); ("Naughty", ("atk","spd"));
      ("Bold",    ("def","atk")); ("Relaxed", ("def","spe"));
      ("Impish",  ("def","spa")); ("Lax",     ("def","spd"));
      ("Modest",  ("spa","atk")); ("Mild",    ("spa","def"));
      ("Quiet",   ("spa","spe")); ("Rash",    ("spa","spd"));
      ("Calm",    ("spd","atk")); ("Gentle",  ("spd","def"));
      ("Sassy",   ("spd","spe")); ("Careful", ("spd","spa"));
      ("Timid",   ("spe","atk")); ("Hasty",   ("spe","def"));
      ("Jolly",   ("spe","spa")); ("Naive",   ("spe","spd")) ]%string.

Definition STAT_KEYS : list string := ["hp"; "atk"; "def"; "spa"; "spd"; "spe"]%string.

(** [get_nature_multiplier], lines 288-299.  [nature] is an
    [Optional[str]]; [not nature] holds for [None] and for the empty
    string. *)
Definition get_nature_multiplier (nature : option string) (stat_key : string)
  : float :=
  match nature with
  | None => 1%float
  | Some EmptyString => 1%float
  | Some n =>
      match NATURE_EFFECTS !! n with
      | None => 1%float
      | Some (inc, dec) =>
          if String.eqb stat_key inc then 1.1%float
          else if String.eqb stat_key dec then 0.9%float
          else 1%float
      end
  end.

(** The order of Python tuples of two [int]s, and the key
    [lambda x: (-x[0], x[1])] of line 316. *)
Definition tuple_ltb (a b : Z * Z) : bool :=
  (a.1 <? b.1) || ((a.1 =? b.1) && (a.2 <? b.2)).

Definition solution_key (x : Z * Z) : Z * Z := (- x.1, x.2).

(** [list.sort(key=...)] is stable: an element stays in front of the later
    elements whose key is equal. *)
Fixpoint insert_by_key {A} (key : A -> Z * Z) (x : A) (l : list A) : list A :=
  match l with
  | [] => [x]
  | y :: l' =>
      if tuple_ltb (key y) (key x) then y :: insert_by_key key x l'
      else x :: y :: l'
  end.

Definition sort_by_key {A} (key : A -> Z * Z) (l : list A) : list A :=
  foldr (insert_by_key key) [] l.

(** [reverse_calc_iv_ev_for_stat], lines 301-317. *)
Definition reverse_calc_iv_ev_for_stat
    (observed base level : Z) (nature_mult : float) (is_hp : bool) (max_iv : Z)
  : result (option (Z * Z)) :=
  solutions ←
    Py.for_in (Py.range 0 (max_iv + 1)) (fun iv solutions =>
      Py.for_in (Py.range_step 0 253 4) (fun ev solutions =>
        s ← calc_stat base iv ev level nature_mult is_hp;
        mret (if s =? observed then solutions ++ [(iv, ev)] else solutions))
      solutions) [];
  match solutions with
  | [] => mret None
  | _ => mret (head (sort_by_key solution_key solutions))
  end.

(** The loop of [generate_set], lines 590-596, run when the IVs are assumed:
    the first EV of [range(0, 253, 4)] that reproduces the observed stat
    ([break] on the first hit), [None] when there is none. *)
Fixpoint first_matching_ev
    (evs : list Z) (obs_val base iv_assumed level : Z) (nm : float) (is_hp : bool)
  : result (option Z) :=
  match evs with
  | [] => Ok None
  | ev :: rest =>
      match calc_stat base iv_assumed ev level nm is_hp with
      | Raise e => Raise e
      | Ok stat_calc =>
          if stat_calc =? obs_val then Ok (Some ev)
          else first_matching_ev rest obs_val base iv_assumed level nm is_hp
      end
  end.

Definition back_calc_ev
    (obs_val base iv_assumed level : Z) (nm : float) (is_hp : bool)
  : result (option Z) :=
  first_matching_ev (Py.range_step 0 253 4) obs_val base iv_assumed level nm is_hp.

(** ** EV clamp *)

(** The EV table is a [Dict[str,int]]; its items come in insertion order
    and an assignment to a present key keeps the key's place. *)
Definition dict : Type := list (string * Z).

Fixpoint dict_get (d : dict) (k : string) : option Z :=
  match d with
  | [] => None
  | (k', v) :: d' => if String.eqb k' k then Some v else dict_get d' k
  end.

Fixpoint dict_set (d : dict) (k : string) (v : Z) : dict :=
  match d with
  | [] => [(k, v)]
  | (k', v') :: d' =>
      if String.eqb k' k then (k', v) :: d' else (k', v') :: dict_set d' k v
  end.

Definition py_sum (l : list Z) : Z := foldl Z.add 0 l.

(** The inner [for] of lines 329-334: the first item with the greatest
    value above 0. *)
Definition find_max (ev_list : list (string * Z)) : option string * Z :=
  foldl (fun '(stat_to_reduce, max_ev) '(s, v) =>
           if v >? max_ev then (Some s, v) else (stat_to_reduce, max_ev))
        (None, 0) ev_list.

(** One turn of the [while] of lines 327-341. *)
Inductive turn : Type :=
  | Break
  | Continue (evs : dict)
  | Throw (e : exn).

Definition clamp_turn (evs : dict) : turn :=
  let '(stat_to_reduce, max_ev) := find_max evs in
  match stat_to_reduce with
  | None => Break
  | Some s =>
      if max_ev <=? 0 then Break
      else match dict_get evs s with
           | None => Throw KeyError
           | Some v => Continue (dict_set evs s (Z.max 0 (v - 4)))
           end
  end.

Equations? clamp_loop (evs : dict) (total : Z) : result dict
  by wf (Z.to_nat (total - 510)) lt :=
  clamp_loop evs total with Z_gt_dec total 510 := {
    | right _ => Ok evs
    | left _ with clamp_turn evs := {
        | Break => Ok evs
        | Throw e => Raise e
        | Continue evs' => clamp_loop evs' (total - 4) } }.
Proof. lia. Qed.

(** [clamp_ev_distribution], lines 319-342. *)
Definition clamp_ev_distribution (evs : dict) : result dict :=
  let total := py_sum evs.*2 in
  if total <=? 510 then Ok evs else clamp_loop evs total.

(** One reduction in the words of the clamp's description, to compare
    with [clamp_turn]: the first stat, in the order of the table, that
    holds the greatest EV gives up 4, as long as that greatest EV is
    above 0. *)
Definition greatest_ev (evs : dict) : Z := foldr (fun kv m => Z.max kv.2 m) 0 evs.

Definition reduce_first_greatest (evs : dict) : dict :=
  let m := greatest_ev evs in
  if m <=? 0 then evs
  else match List.find (fun kv => kv.2 =? m) evs with
       | Some (s, v) => dict_set evs s (v - 4)
       | None => evs
       end.

(** What the clamp may do to a table: same keys in the same order, every
    value a multiple of 4 between 0 and the value it had. *)
Definition shrunk (evs0 evs : dict) : Prop :=
  Forall2 (fun a b => b.1 = a.1 /\ 0 <= b.2 <= a.2 /\ (4 | b.2)) evs0 evs.

(** The table of scenario 5. *)
Definition three_maxed : dict :=
  [("hp", 0); ("atk", 252); ("def", 0); ("spa", 252); ("spd", 0); ("spe", 252)]%string.

(** ** Strings *)

Module Str.

Local Open Scope nat_scope.

(** [str.isspace] on ASCII: tab to carriage return, the four separators
    and the space. *)
Definition is_space (c : ascii) : bool :=
  let n := nat_of_ascii c in
  ((9 <=? n) && (n <=? 13)) || ((28 <=? n) && (n <=? 32)).

Definition is_upper (c : ascii) : bool :=
  let n := nat_of_ascii c in (65 <=? n) && (n <=? 90).

Definition is_lower (c : ascii) : bool :=
  let n := nat_of_ascii c in (97 <=? n) && (n <=? 122).

Definition to_lower (c : ascii) : ascii :=
  if is_upper c then ascii_of_nat (nat_of_ascii c + 32) else c.

Definition to_upper (c : ascii) : ascii :=
  if is_lower c then ascii_of_nat (nat_of_ascii c - 32) else c.

(** [s.lower()] *)
Fixpoint lower (s : string) : string :=
  match s with
  | EmptyString => EmptyString
  | String c s' => String (to_lower c) (lower s')
  end.

Fixpoint lstrip (s : string) : string :=
  match s with
  | EmptyString => EmptyString
  | String c s' => if is_space c then lstrip s' else s
  end.

Definition reverse (s : string) : string :=
  string_of_list_ascii (rev (list_ascii_of_string s)).

Definition rstrip (s : string) : string := reverse (lstrip (reverse s)).

(** [s.strip()] *)
Definition strip (s : string) : string := rstrip (lstrip s).

(** [s.replace(old, new)] for one-character [old] and [new]. *)
Fixpoint replace (old new : ascii) (s : string) : string :=
  match s with
  | EmptyString => EmptyString
  | String c s' =>
      String (if Ascii.eqb c old then new else c) (replace old new s')
  end.

(** [s.title()]: a cased character is upper-cased after an uncased one and
    lower-cased after a cased one. *)
Fixpoint title_from (previous_is_cased : bool) (s : string) : string :=
  match s with
  | EmptyString => EmptyString
  | String c s' =>
      if is_upper c || is_lower c then
        String (if previous_is_cased then to_lower c else to_upper c)
               (title_from true s')
      else String c (title_from false s')
  end.

Definition title (s : string) : string := title_from false s.

(** [s.startswith(p)] and [sub in s]. *)
Definition startswith (s p : string) : bool := String.prefix p s.

Fixpoint contains (sub s : string) : bool :=
  String.prefix sub s ||
  match s with
  | EmptyString => false
  | String _ s' => contains sub s'
  end.

End Str.

(** [title_case_showdown], lines 110-112. *)
Definition title_case_showdown (s : string) : string :=
  Str.title (Str.replace "_" " " (Str.strip s)).

(** ** The terminal *)

(** [input] consumes the next line typed by the user and [print] appends a
    line to what was shown; [input] raises [EOFError] when nothing is
    left. *)
Record console : Type := Console { stdin : list string; stdout : list string }.

Definition io (A : Type) : Type := console -> result A * console.

#[global] Instance io_ret : MRet io := fun _ a w => (Ok a, w).
#[global] Instance io_bind : MBind io := fun _ _ k m w =>
  match m w with
  | (Ok a, w') => k a w'
  | (Raise e, w') => (Raise e, w')
  end.

Definition input (prompt : string) : io string := fun w =>
  let shown := Console (tail (stdin w)) (stdout w ++ [prompt]) in
  match stdin w with
  | [] => (Raise EOFError, shown)
  | line :: _ => (Ok line, shown)
  end.

Definition print (line : string) : io unit := fun w =>
  (Ok tt, Console (stdin w) (stdout w ++ [line])).

(** ** Validation and autocorrect *)

Section Validation.

(** [difflib.get_close_matches(word, possibilities, n, cutoff)] belongs to
    the Python library; the validation is stated for any such function. *)
Variable get_close_matches : string -> list string -> nat -> float -> list string.

(** The loop of lines 272-276 over [close[1:]]. *)
Fixpoint offer_alternatives (alternatives : list string) (u : string) : io string :=
  match alternatives with
  | [] => mret u
  | s :: rest =>
      ans2 ← input ("Use alternative suggestion '" +:+ s +:+ "'? (y/n): ");
      if Str.startswith (Str.lower (Str.strip ans2)) "y" then mret s
      else offer_alternatives rest u
  end.

(** [validate_input], lines 228-278; [autocorrect_mode] is 1 for prompt,
    2 for silent and 3 for off.  The list [candidates] of line 240 is
    never read and is left out. *)
Definition validate_input
    (user_input : string) (valid_list : list string) (autocorrect_mode : Z)
    (label : string)
  : io string :=
  if String.eqb user_input EmptyString then mret user_input
  else
    let u := Str.strip user_input in
    let u_norm := Str.strip (Str.replace "_" " " u) in
    let low_map := dict_of_items ((fun v => (Str.lower v, v)) <$> valid_list) in
    match low_map !! Str.lower u_norm with
    | Some v => mret v
    | None =>
        let t := title_case_showdown u_norm in
        if bool_decide (t ∈ valid_list) then mret t
        else
          let close := get_close_matches t valid_list 3%nat 0.65%float in
          let close :=
            match close with
            | [] =>
                let substring_matches :=
                  List.filter
                    (fun v => Str.contains (Str.lower u_norm) (Str.lower v))
                    valid_list in
                match substring_matches with
                | [] => close
                | _ => take 3 substring_matches
                end
            | _ => close
            end in
          match close with
          | [] => mret u
          | suggestion :: others =>
              if autocorrect_mode =? 3 then mret u
              else if autocorrect_mode =? 2 then
                _ ← print ("[Auto-corrected] " +:+ label +:+ ": '" +:+ u
                           +:+ "' -> '" +:+ suggestion +:+ "'");
                mret suggestion
              else
                ans ← input ("'" +:+ u +:+ "' not found. Did you mean '"
                             +:+ suggestion +:+ "'? (y/n): ");
                if Str.startswith (Str.lower (Str.strip ans)) "y"
                then mret suggestion
                else offer_alternatives others u
          end
    end.

End Validation.

(** [get_autocorrect_mode] names the modes: prompt 1, silent 2, off 3. *)
Definition mode_prompt : Z := 1.
Definition mode_silent : Z := 2.
Definition mode_off : Z := 3.

(** [raw] trimmed, underscores turned into spaces, trimmed again: the
    [u_norm] of [validate_input]. *)
Definition normalized (raw : string) : string :=
  Str.strip (Str.replace "_" " " (Str.strip raw)).

(** The last entry of the list whose lower-case form is [k]. *)
Definition last_ignoring_case (valid_list : list string) (k : string) : option string :=
  last (List.filter (fun v => String.eqb (Str.lower v) k) valid_list).

(** A matcher that proposes nothing. *)
Definition no_close_matches : string -> list string -> nat -> float -> list string :=
  fun _ _ _ _ => [].

(** ** The formula over exact arithmetic *)

(** The three nature multipliers, each with the rational it stands for. *)
Inductive nature_multiplier : float -> Q -> Prop :=
  | multiplier_reduced : nature_multiplier 0.9%float (9 # 10)%Q
  | multiplier_neutral : nature_multiplier 1%float 1%Q
  | multiplier_boosted : nature_multiplier 1.1%float (11 # 10)%Q.

(** The stat formula with every intermediate value an exact integer or
    rational: no float, no tolerance. *)
Definition exact_stat (base iv ev level : Z) (multiplier : Q) (is_hp : bool) : Z :=
  let raw := ((2 * base + iv + ev / 4) * level) / 100 in
  if is_hp then raw + level + 10
  else Qfloor (inject_Z (raw + 5) * multiplier).

(** Checks run over a whole interval of integers: the float pipeline of
    [calc_stat] against the exact value. *)
Definition floor_div100_agrees (a : Z) : bool :=
  match Py.truediv a 100 ≫= Py.floor with
  | Ok r => r =? a / 100
  | Raise _ => false
  end.

Definition scaled_floor (inner : Z) (nature_mult : float) : result Z :=
  x ← Py.float_of_int inner; Py.floor (x * nature_mult + 1e-9)%float.

Definition scaled_floor_agrees (nature_mult : float) (q : Q) (inner : Z) : bool :=
  match scaled_floor inner nature_mult with
  | Ok r => r =? Qfloor (inject_Z inner * q)
  | Raise _ => false
  end.

(** The search grid of the reverse solver: [iv] in [range(0, max_iv+1)] and
    [ev] in [range(0, 253, 4)]. *)
Definition ev_step (ev : Z) : Prop := exists k, 0 <= k <= 63 /\ ev = 4 * k.

Definition on_grid (max_iv iv ev : Z) : Prop := 0 <= iv <= max_iv /\ ev_step ev.

(** The round trip through the solver of the stat computed at [(iv, ev)]. *)
Definition round_trip
    (base level : Z) (nature_mult : float) (is_hp : bool) (iv ev : Z) : Prop :=
  exists observed,
    calc_stat base iv ev level nature_mult is_hp = Ok observed /\
    exists iv' ev',
      reverse_calc_iv_ev_for_stat observed base level nature_mult is_hp 31
        = Ok (Some (iv', ev')) /\
      calc_stat base iv' ev' level nature_mult is_hp = Ok observed.

Fixpoint forallb_from (f : Z -> bool) (lo : Z) (n : nat) : bool :=
  match n with
  | O => true
  | S n' => f lo && forallb_from f (lo + 1) n'
  end.

(** The largest numerator [(2*base + iv + ev//4) * level] for which the
    agreement is checked value by value; it covers every base stat up to
    255 over the whole legal range of the other arguments. *)
Definition numerator_bound : Z := 100000.

(** * More of the program *)

(** ** The layers of the validation *)

(** The candidate list [close] of lines 250-255: what the fuzzy matcher
    proposes, else up to three entries that contain the input. *)
Definition candidates
    (get_close_matches : string -> list string -> nat -> float -> list string)
    (u_norm : string) (valid_list : list string) : list string :=
  match get_close_matches (title_case_showdown u_norm) valid_list 3%nat 0.65%float with
  | [] =>
      match List.filter
              (fun v => Str.contains (Str.lower u_norm) (Str.lower v))
              valid_list with
      | [] => []
      | substring_matches => take 3 substring_matches
      end
  | close => close
  end.

(** What is done with the candidates, lines 256-278. *)
Definition settle
    (close : list string) (u : string) (autocorrect_mode : Z) (label : string)
  : io string :=
  match close with
  | [] => mret u
  | suggestion :: others =>
      if autocorrect_mode =? 3 then mret u
      else if autocorrect_mode =? 2 then
        _ ← print ("[Auto-corrected] " +:+ label +:+ ": '" +:+ u
                   +:+ "' -> '" +:+ suggestion +:+ "'");
        mret suggestion
      else
        ans ← input ("'" +:+ u +:+ "' not found. Did you mean '"
                     +:+ suggestion +:+ "'? (y/n): ");
        if Str.startswith (Str.lower (Str.strip ans)) "y"
        then mret suggestion
        else offer_alternatives others u
  end.

(** An answer that does not start with y or Y, blanks aside. *)
Definition declines (answer : string) : Prop :=
  Str.startswith (Str.lower (Str.strip answer)) "y" = false.

(** ** Validation over any text functions *)

(** [str.lower], [str.strip] and [str.title] follow the Unicode tables of
    the interpreter, and [Str] above is what they do on ASCII text.  Here
    the three are left open, so that what is proved of the validation
    holds of the interpreter's own functions on every text.  A [str] is
    the string of its UTF-8 bytes, on which [==], [+],
    [replace("_", " ")], [startswith("y")] and [in] are what they are on
    the text. *)
Record text : Type := Text {
  text_lower : string -> string;
  text_strip : string -> string;
  text_title : string -> string }.

Definition ascii_text : text := Text Str.lower Str.strip Str.title.

(** What is asked of them: trimming the empty string gives the empty
    string, and no other string has the lower-case form of the empty
    string. *)
Record text_laws (t : text) : Prop := Text_laws {
  strip_of_empty : text_strip t EmptyString = EmptyString;
  lower_only_empty :
    forall s, text_lower t s = text_lower t EmptyString -> s = EmptyString }.

Section TextValidation.

Variable t : text.
Variable get_close_matches : string -> list string -> nat -> float -> list string.

(** [title_case_showdown], lines 110-112. *)
Definition title_case_showdown_for (s : string) : string :=
  text_title t (Str.replace "_" " " (text_strip t s)).

(** The loop of lines 272-276 over [close[1:]]. *)
Fixpoint offer_alternatives_for (alternatives : list string) (u : string)
  : io string :=
  match alternatives with
  | [] => mret u
  | s :: rest =>
      ans2 ← input ("Use alternative suggestion '" +:+ s +:+ "'? (y/n): ");
      if Str.startswith (text_lower t (text_strip t ans2)) "y" then mret s
      else offer_alternatives_for rest u
  end.

(** [validate_input], lines 228-278, with the text functions of [t]. *)
Definition validate_input_for
    (user_input : string) (valid_list : list string) (autocorrect_mode : Z)
    (label : string)
  : io string :=
  if String.eqb user_input EmptyString then mret user_input
  else
    let u := text_strip t user_input in
    let u_norm := text_strip t (Str.replace "_" " " u) in
    let low_map := dict_of_items ((fun v => (text_lower t v, v)) <$> valid_list) in
    match low_map !! text_lower t u_norm with
    | Some v => mret v
    | None =>
        let titled := title_case_showdown_for u_norm in
        if bool_decide (titled ∈ valid_list) then mret titled
        else
          let close := get_close_matches titled valid_list 3%nat 0.65%float in
          let close :=
            match close with
            | [] =>
                let substring_matches :=
                  List.filter
                    (fun v => Str.contains (text_lower t u_norm) (text_lower t v))
                    valid_list in
                match substring_matches with
                | [] => close
                | _ => take 3 substring_matches
                end
            | _ => close
            end in
          match close with
          | [] => mret u
          | suggestion :: others =>
              if autocorrect_mode =? 3 then mret u
              else if autocorrect_mode =? 2 then
                _ ← print ("[Auto-corrected] " +:+ label +:+ ": '" +:+ u
                           +:+ "' -> '" +:+ suggestion +:+ "'");
                mret suggestion
              else
                ans ← input ("'" +:+ u +:+ "' not found. Did you mean '"
                             +:+ suggestion +:+ "'? (y/n): ");
                if Str.startswith (text_lower t (text_strip t ans)) "y"
                then mret suggestion
                else offer_alternatives_for others u
          end
    end.

(** The [u_norm] of [validate_input]. *)
Definition normalized_for (raw : string) : string :=
  text_strip t (Str.replace "_" " " (text_strip t raw)).

(** The last entry of the list whose lower-case form is [k]. *)
Definition last_ignoring_case_for (valid_list : list string) (k : string)
  : option string :=
  last (List.filter (fun v => String.eqb (text_lower t v) k) valid_list).

(** The candidate list [close] of lines 250-255. *)
Definition candidates_for (u_norm : string) (valid_list : list string)
  : list string :=
  match get_close_matches (title_case_showdown_for u_norm) valid_list
          3%nat 0.65%float with
  | [] =>
      match List.filter
              (fun v => Str.contains (text_lower t u_norm) (text_lower t v))
              valid_list with
      | [] => []
      | substring_matches => take 3 substring_matches
      end
  | close => close
  end.

(** What is done with the candidates, lines 256-278. *)
Definition settle_for
    (close : list string) (u : string) (autocorrect_mode : Z) (label : string)
  : io string :=
  match close with
  | [] => mret u
  | suggestion :: others =>
      if autocorrect_mode =? 3 then mret u
      else if autocorrect_mode =? 2 then
        _ ← print ("[Auto-corrected] " +:+ label +:+ ": '" +:+ u
                   +:+ "' -> '" +:+ suggestion +:+ "'");
        mret suggestion
      else
        ans ← input ("'" +:+ u +:+ "' not found. Did you mean '"
                     +:+ suggestion +:+ "'? (y/n): ");
        if Str.startswith (text_lower t (text_strip t ans)) "y"
        then mret suggestion
        else offer_alternatives_for others u
  end.

(** An answer that does not start with y once trimmed and lower-cased. *)
Definition declines_for (answer : string) : Prop :=
  Str.startswith (text_lower t (text_strip t answer)) "y" = false.
End TextValidation.

(** ** Names of natures *)

(** [FALLBACK_NATURES], lines 42-48. *)
Definition FALLBACK_NATURES : list string :=
  [ "Hardy"; "Lonely"; "Brave"; "Adamant"; "Naughty";
    "Bold"; "Docile"; "Relaxed"; "Impish"; "Lax";
    "Timid"; "Hasty"; "Serious"; "Jolly"; "Naive";
    "Modest"; "Mild"; "Quiet"; "Rash"; "Calm";
    "Gentle"; "Sassy"; "Careful"; "Quirky"; "Bashful" ]%string.

(** The stat keys other than HP. *)
Definition battle_keys : list string := ["atk"; "def"; "spa"; "spd"; "spe"]%string.

(** What holds of every entry of the table: a non-empty name, two distinct
    stats other than HP. *)
Definition well_formed_effect (n : string) (effect : string * string) : Prop :=
  n <> EmptyString /\ effect.1 ∈ battle_keys /\ effect.2 ∈ battle_keys /\
  effect.1 <> effect.2.

(** ** Questions *)



(** ** Ribbon categories *)

(** [CATEGORIES] of [scraper.py], lines 8-15, in the order of the display. *)
Definition CATEGORIES : list (string * list string) :=
  [ ("Champion Ribbons", ["Champion"; "Hall of Fame"; "League"]);
    ("Battle & Achievement Ribbons",
       ["Battle"; "Victory"; "Tournament"; "Arena"; "Mastery"; "Elite"]);
    ("Contest & Event Ribbons",
       ["Contest"; "Artist"; "Festival"; "World"; "Premier"; "Performance";
        "Stage"]);
    ("Friendship & Common Ribbons",
       ["Effort"; "Classic"; "Best Friends"; "Partner"; "Friend";
        "Commemorative"]);
    ("Marks (Weather / Size)",
       ["Mark"; "Cloudy"; "Rainy"; "Stormy"; "Snowy"; "Sunny"; "Jumbo";
        "Teeny"; "Huge"; "Tiny"]);
    ("Special / Distribution Ribbons",
       ["Distribution"; "Anniversary"; "Promo"; "Developer"; "Special"]) ]%string.

(** The inner loop of [categorize_ribbon]: some keyword occurs in the
    name, case aside. *)
Fixpoint keyword_in (keywords : list string) (name : string) : bool :=
  match keywords with
  | [] => false
  | kw :: rest =>
      if Str.contains (Str.lower kw) (Str.lower name) then true
      else keyword_in rest name
  end.

Fixpoint categorize_among (categories : list (string * list string)) (name : string)
  : string :=
  match categories with
  | [] => "Uncategorized Ribbons"
  | (category, keywords) :: rest =>
      if keyword_in keywords name then category else categorize_among rest name
  end.

(** [categorize_ribbon] of [scraper.py], lines 17-22. *)
Definition categorize_ribbon (name : string) : string :=
  categorize_among CATEGORIES name.

(** [categorize_ribbon] with [str.lower] left open, as the validation
    above. *)
Fixpoint keyword_in_for (lower : string -> string) (keywords : list string)
    (name : string) : bool :=
  match keywords with
  | [] => false
  | kw :: rest =>
      if Str.contains (lower kw) (lower name) then true
      else keyword_in_for lower rest name
  end.

Fixpoint categorize_among_for (lower : string -> string)
    (categories : list (string * list string)) (name : string) : string :=
  match categories with
  | [] => "Uncategorized Ribbons"
  | (category, keywords) :: rest =>
      if keyword_in_for lower keywords name then category
      else categorize_among_for lower rest name
  end.

Definition categorize_ribbon_for (lower : string -> string) (name : string) : string :=
  categorize_among_for lower CATEGORIES name.

(** ** Bookkeeping of the clamp *)

(** The number of turns the loop takes from a total. *)
Definition turns (total : Z) : nat := Z.to_nat ((total - 507) / 4).

(** An EV as [generate_set] writes it into its table: 0, the EV of a
    solver answer, or the EV found with the IV held fixed. *)
Definition inferred_ev (v : Z) : Prop :=
  v = 0 \/
  (exists observed base level m is_hp max_iv iv,
      reverse_calc_iv_ev_for_stat observed base level m is_hp max_iv
        = Ok (Some (iv, v))) \/
  (exists observed base iv level m is_hp,
      back_calc_ev observed base iv level m is_hp = Ok (Some v)).

(** * Properties *)

(** ** Scenarios of the formula *)

Example calc_stat_scenario_1 : calc_stat 100 31 252 100 1.1 false = Ok 328.
Proof. vm_compute. reflexivity. Qed.

Example calc_stat_scenario_2 : calc_stat 100 31 252 100 1 true = Ok 404.
Proof. vm_compute. reflexivity. Qed.

Example three_maxed_keys : three_maxed.*1 = STAT_KEYS.
Proof. reflexivity. Qed.

Example reverse_calc_scenario_3 :
  reverse_calc_iv_ev_for_stat 328 100 100 1.1 false 31 = Ok (Some (31, 252)).
Proof. vm_compute. reflexivity. Qed.

(** ** The float pipeline on small numerators *)

Lemma forallb_from_spec (f : Z -> bool) (n : nat) :
  forall lo x,
    forallb_from f lo n = true -> lo <= x < lo + Z.of_nat n -> f x = true.
Proof.
  induction n as [|n IH]; intros lo x Hall Hx; [lia|].
  cbn [forallb_from] in Hall. apply andb_true_iff in Hall as [Hlo Hrest].
  destruct (Z.eq_dec x lo) as [->|Hne]; [exact Hlo|].
  apply (IH (lo + 1)); [exact Hrest | lia].
Qed.

Lemma forallb_upto (f : Z -> bool) (hi x : Z) :
  forallb_from f 0 (Z.to_nat (hi + 1)) = true -> 0 <= x <= hi -> f x = true.
Proof.
  intros Hall Hx. apply (forallb_from_spec f _ 0 x Hall).
  rewrite Z2Nat.id; lia.
Qed.

Lemma floor_div100_small (a : Z) :
  0 <= a <= numerator_bound ->
  Py.truediv a 100 ≫= Py.floor = Ok (a / 100).
Proof.
  intros Ha.
  assert (Hall : forallb_from floor_div100_agrees 0
                   (Z.to_nat (numerator_bound + 1)) = true)
    by (vm_compute; reflexivity).
  pose proof (forallb_upto _ _ a Hall Ha) as Hchk.
  unfold floor_div100_agrees in Hchk.
  destruct (Py.truediv a 100 ≫= Py.floor) as [r|e].
  - f_equal. apply Z.eqb_eq, Hchk.
  - discriminate Hchk.
Qed.

Lemma scaled_floor_small (inner : Z) (m : float) (q : Q) :
  nature_multiplier m q ->
  0 <= inner <= numerator_bound / 100 + 5 ->
  scaled_floor inner m = Ok (Qfloor (inject_Z inner * q)).
Proof.
  intros Hm Hi.
  assert (Hall : forallb_from (scaled_floor_agrees m q) 0
                   (Z.to_nat (numerator_bound / 100 + 5 + 1)) = true)
    by (destruct Hm; vm_compute; reflexivity).
  pose proof (forallb_upto _ _ inner Hall Hi) as Hchk.
  unfold scaled_floor_agrees in Hchk.
  destruct (scaled_floor inner m) as [r|e].
  - f_equal. apply Z.eqb_eq, Hchk.
  - discriminate Hchk.
Qed.

(** On every numerator up to [numerator_bound] the code computes the exact
    value; nothing in the statement bounds [level], [iv] or [ev]
    separately. *)
Lemma calc_stat_exact (base iv ev level : Z) (m : float) (q : Q) (is_hp : bool) :
  nature_multiplier m q ->
  0 <= (2 * base + iv + ev / 4) * level <= numerator_bound ->
  calc_stat base iv ev level m is_hp = Ok (exact_stat base iv ev level q is_hp).
Proof.
  intros Hm Hn.
  pose proof (floor_div100_small _ Hn) as Hdiv.
  unfold calc_stat, exact_stat.
  destruct (Py.truediv ((2 * base + iv + ev / 4) * level) 100) as [x|e];
    [|discriminate Hdiv].
  cbn in Hdiv |- *. rewrite Hdiv. destruct is_hp; cbn; [reflexivity|].
  apply (scaled_floor_small _ m q Hm).
  assert (0 <= (2 * base + iv + ev / 4) * level / 100 <= numerator_bound / 100).
  { split; [apply Z.div_pos; lia | apply Z.div_le_mono; lia]. }
  lia.
Qed.

(** ** Loops *)

Lemma range_spec (stop x : Z) : x ∈ Py.range 0 stop <-> 0 <= x < stop.
Proof. unfold Py.range. rewrite elem_of_seqZ. lia. Qed.

Lemma range_step_spec (ev : Z) : ev ∈ Py.range_step 0 253 4 <-> ev_step ev.
Proof.
  unfold Py.range_step, ev_step.
  change ((253 - 0 + 4 - 1) / 4) with 64.
  rewrite list_elem_of_fmap. split.
  - intros (k & -> & Hk). apply elem_of_seqZ in Hk. exists k. lia.
  - intros (k & Hk & ->). exists k. split; [lia|]. apply elem_of_seqZ. lia.
Qed.

(** A loop that ran to its end kept every invariant its turns keep. *)
Lemma for_in_invariant {A S} (P : list A -> S -> Prop)
    (body : A -> S -> result S) (xs : list A) :
  (forall done x acc acc',
      P done acc -> body x acc = Ok acc' -> P (done ++ [x]) acc') ->
  forall done s s',
    P done s -> Py.for_in xs body s = Ok s' -> P (done ++ xs) s'.
Proof.
  intros Hstep. induction xs as [|x xs IH]; intros done s s' HP Hrun; cbn in Hrun.
  - injection Hrun as <-. rewrite app_nil_r. exact HP.
  - destruct (body x s) as [s1|e] eqn:Hb; [|discriminate].
    replace (done ++ x :: xs) with ((done ++ [x]) ++ xs)
      by (rewrite <- app_assoc; reflexivity).
    eapply IH; [|exact Hrun]. eapply Hstep; eauto.
Qed.

(** A loop whose turns all return runs to its end. *)
Lemma for_in_returns {A S} (body : A -> S -> result S) (xs : list A) :
  (forall x acc, x ∈ xs -> returns (body x acc)) ->
  forall s, returns (Py.for_in xs body s).
Proof.
  induction xs as [|x xs IH]; intros Hb s; cbn.
  - exists s. reflexivity.
  - destruct (Hb x s) as [s1 ->]; [left|].
    apply IH. intros y acc Hy. apply Hb. right. exact Hy.
Qed.

(** ** Sorting by key *)

Lemma insert_by_key_elem {A} (key : A -> Z * Z) (x y : A) (l : list A) :
  y ∈ insert_by_key key x l <-> y = x \/ y ∈ l.
Proof.
  induction l as [|z l IH]; cbn.
  - rewrite list_elem_of_singleton, elem_of_nil. tauto.
  - destruct (tuple_ltb (key z) (key x)).
    + rewrite !elem_of_cons, IH. tauto.
    + rewrite !elem_of_cons. tauto.
Qed.

Lemma sort_by_key_elem {A} (key : A -> Z * Z) (y : A) (l : list A) :
  y ∈ sort_by_key key l <-> y ∈ l.
Proof.
  induction l as [|x l IH]; cbn; [reflexivity|].
  rewrite insert_by_key_elem, elem_of_cons, IH. reflexivity.
Qed.

(** The head of the sorted list has a key that no other key is below. *)
Lemma sort_by_key_head {A} (key : A -> Z * Z) (l : list A) (h : A) :
  head (sort_by_key key l) = Some h ->
  h ∈ l /\ forall x, x ∈ l -> tuple_ltb (key x) (key h) = false.
Proof.
  revert h. induction l as [|a l IH]; intros h Hh; cbn in Hh; [discriminate|].
  fold (sort_by_key key l) in Hh.
  destruct (sort_by_key key l) as [|h' t] eqn:Hs; cbn in Hh.
  - injection Hh as <-.
    assert (l = []) as ->.
    { apply elem_of_nil_inv. intros x Hx.
      apply (sort_by_key_elem key) in Hx. rewrite Hs in Hx.
      apply elem_of_nil in Hx. exact Hx. }
    split; [left|]. intros x Hx. apply list_elem_of_singleton in Hx as ->.
    unfold tuple_ltb. lia.
  - destruct (IH h' eq_refl) as [Hin Hmin].
    destruct (tuple_ltb (key h') (key a)) eqn:Hlt; cbn in Hh; injection Hh as <-.
    + split; [right; exact Hin|].
      intros x Hx. apply elem_of_cons in Hx as [->|Hx]; [|apply Hmin, Hx].
      unfold tuple_ltb in *. lia.
    + split; [left|].
      intros x Hx. apply elem_of_cons in Hx as [->|Hx].
      * unfold tuple_ltb. lia.
      * specialize (Hmin x Hx). unfold tuple_ltb in *. lia.
Qed.

(** ** The reverse solver *)

Section Solver.

Context (observed base level : Z) (nature_mult : float) (is_hp : bool).

(** What the two nested loops of lines 307-313 leave in [solutions]. *)
Lemma scan_sound (max_iv : Z) (solutions : list (Z * Z)) :
  Py.for_in (Py.range 0 (max_iv + 1)) (fun iv solutions =>
    Py.for_in (Py.range_step 0 253 4) (fun ev solutions =>
      s ← calc_stat base iv ev level nature_mult is_hp;
      mret (if s =? observed then solutions ++ [(iv, ev)] else solutions))
    solutions) [] = Ok solutions ->
  (forall iv ev, on_grid max_iv iv ev ->
     returns (calc_stat base iv ev level nature_mult is_hp)) /\
  (forall iv ev, (iv, ev) ∈ solutions <->
     on_grid max_iv iv ev /\
     calc_stat base iv ev level nature_mult is_hp = Ok observed).
Proof.
  intros Hrun.
  pose (visited (ivs evs : list Z) (iv ev : Z) := iv ∈ ivs /\ ev ∈ evs).
  pose (P (seen : Z -> Z -> Prop) (acc : list (Z * Z)) :=
          (forall iv ev, seen iv ev ->
             returns (calc_stat base iv ev level nature_mult is_hp)) /\
          (forall iv ev, (iv, ev) ∈ acc <->
             seen iv ev /\
             calc_stat base iv ev level nature_mult is_hp = Ok observed)).
  assert (Hgoal : P (visited ([] ++ Py.range 0 (max_iv + 1))
                             (Py.range_step 0 253 4)) solutions).
  { refine (for_in_invariant
              (fun ivs acc => P (visited ivs (Py.range_step 0 253 4)) acc)
              _ _ _ [] [] solutions _ Hrun).
    - intros ivs iv acc acc' HP Hinner.
      assert (Hin : P (fun iv' ev' =>
                         visited ivs (Py.range_step 0 253 4) iv' ev' \/
                         (iv' = iv /\ ev' ∈ [] ++ Py.range_step 0 253 4)) acc').
      { refine (for_in_invariant
                  (fun evs acc =>
                     P (fun iv' ev' =>
                          visited ivs (Py.range_step 0 253 4) iv' ev' \/
                          (iv' = iv /\ ev' ∈ evs)) acc)
                  _ _ _ [] acc acc' _ Hinner).
        - clear. intros evs ev acc acc' [Hret Hmem] Hbody.
          destruct (calc_stat base iv ev level nature_mult is_hp) as [s|e] eqn:Hs;
            [|discriminate]. cbn in Hbody. injection Hbody as <-.
          split.
          + intros iv' ev' [Hseen|[-> Hev]]; [apply Hret; left; exact Hseen|].
            apply elem_of_app in Hev as [Hev|Hev].
            * apply Hret. right. split; [reflexivity|exact Hev].
            * apply list_elem_of_singleton in Hev as ->. exists s. exact Hs.
          + intros iv' ev'. destruct (s =? observed) eqn:Heq.
            * apply Z.eqb_eq in Heq as ->.
              rewrite elem_of_app, list_elem_of_singleton, Hmem, elem_of_app,
                list_elem_of_singleton.
              split.
              -- intros [[Hseen Hc]|Hp]; [tauto|]. injection Hp as -> ->. tauto.
              -- intros [[Hseen|[-> [Hev| ->]]] Hc]; tauto.
            * apply Z.eqb_neq in Heq.
              rewrite Hmem, elem_of_app, list_elem_of_singleton.
              split; [tauto|].
              intros [[Hseen|[-> [Hev| ->]]] Hc]; [tauto|tauto|congruence].
        - destruct HP as [Hret Hmem]. split.
          + intros iv' ev' [Hseen|[_ Hev]]; [apply Hret, Hseen|].
            apply elem_of_nil in Hev. destruct Hev.
          + intros iv' ev'. rewrite Hmem. split; [tauto|].
            intros [[Hseen|[_ Hev]] Hc]; [tauto|]. apply elem_of_nil in Hev.
            destruct Hev. }
      destruct Hin as [Hret Hmem]. unfold visited in *. cbn [app] in *. split.
      + intros iv' ev' [Hiv Hev]. apply Hret.
        apply elem_of_app in Hiv as [Hiv|Hiv]; [tauto|].
        apply list_elem_of_singleton in Hiv. tauto.
      + intros iv' ev'. rewrite Hmem, elem_of_app, list_elem_of_singleton. tauto.
    - unfold visited. split.
      + intros iv ev [Hiv _]. apply elem_of_nil in Hiv. destruct Hiv.
      + intros iv ev. rewrite elem_of_nil. split; [tauto|].
        intros [[Hiv _] _]. apply elem_of_nil in Hiv. exact Hiv. }
  destruct Hgoal as [Hret Hmem]. unfold visited, on_grid in *. cbn [app] in *.
  split.
  - intros iv ev [Hiv Hev]. apply Hret.
    rewrite range_spec, range_step_spec. split; [lia|exact Hev].
  - intros iv ev. rewrite Hmem, range_spec, range_step_spec.
    assert (0 <= iv < max_iv + 1 <-> 0 <= iv <= max_iv) by lia. tauto.
Qed.

(** The scan runs to its end when the formula returns on the whole grid. *)
Lemma scan_returns (max_iv : Z) :
  (forall iv ev, on_grid max_iv iv ev ->
     returns (calc_stat base iv ev level nature_mult is_hp)) ->
  returns
    (Py.for_in (Py.range 0 (max_iv + 1)) (fun iv solutions =>
       Py.for_in (Py.range_step 0 253 4) (fun ev solutions =>
         s ← calc_stat base iv ev level nature_mult is_hp;
         mret (if s =? observed then solutions ++ [(iv, ev)] else solutions))
       solutions) []).
Proof.
  intros Hgrid. apply for_in_returns. intros iv acc Hiv.
  apply for_in_returns. intros ev acc' Hev.
  destruct (Hgrid iv ev) as [s ->].
  - split; [apply range_spec in Hiv; lia | apply range_step_spec, Hev].
  - cbn. eexists. reflexivity.
Qed.

(** The solver's answer, when there is one, is a grid point that
    reproduces the observed value, with the greatest IV and the least EV
    at that IV. *)
Lemma reverse_calc_some (max_iv iv ev : Z) :
  reverse_calc_iv_ev_for_stat observed base level nature_mult is_hp max_iv
    = Ok (Some (iv, ev)) ->
  (on_grid max_iv iv ev /\
   calc_stat base iv ev level nature_mult is_hp = Ok observed) /\
  forall iv' ev',
    on_grid max_iv iv' ev' ->
    calc_stat base iv' ev' level nature_mult is_hp = Ok observed ->
    iv' <= iv /\ (iv' = iv -> ev <= ev').
Proof.
  unfold reverse_calc_iv_ev_for_stat. intros Hrun.
  match type of Hrun with (?scan ≫= _) = _ =>
    destruct scan as [solutions|e] eqn:Hscan; [|discriminate Hrun] end.
  apply scan_sound in Hscan as [_ Hmem]. cbn in Hrun.
  assert (Hhead : head (sort_by_key solution_key solutions) = Some (iv, ev)).
  { destruct solutions; [discriminate Hrun|]. injection Hrun as Hrun. exact Hrun. }
  apply sort_by_key_head in Hhead as [Hin Hmin]. split.
  - apply Hmem, Hin.
  - intros iv' ev' Hgrid Hcalc.
    specialize (Hmin (iv', ev')). rewrite Hmem in Hmin.
    specialize (Hmin (conj Hgrid Hcalc)).
    unfold tuple_ltb, solution_key in Hmin. cbn in Hmin. lia.
Qed.

(** The solver answers [None] only when no grid point reproduces the
    observed value. *)
Lemma reverse_calc_none (max_iv : Z) :
  reverse_calc_iv_ev_for_stat observed base level nature_mult is_hp max_iv
    = Ok None ->
  forall iv ev,
    on_grid max_iv iv ev ->
    calc_stat base iv ev level nature_mult is_hp <> Ok observed.
Proof.
  unfold reverse_calc_iv_ev_for_stat. intros Hrun iv ev Hgrid Hcalc.
  match type of Hrun with (?scan ≫= _) = _ =>
    destruct scan as [solutions|e] eqn:Hscan; [|discriminate Hrun] end.
  apply scan_sound in Hscan as [_ Hmem]. cbn in Hrun.
  destruct solutions as [|p solutions].
  - assert (Hin : (iv, ev) ∈ []) by (apply Hmem; split; assumption).
    apply elem_of_nil in Hin. exact Hin.
  - injection Hrun as Hrun. apply head_None in Hrun.
    assert (Hp : p ∈ insert_by_key solution_key p
                       (sort_by_key solution_key solutions))
      by (apply insert_by_key_elem; left; reflexivity).
    rewrite Hrun in Hp. apply elem_of_nil in Hp. exact Hp.
Qed.

(** The solver returns when the formula returns on the whole grid. *)
Lemma reverse_calc_returns (max_iv : Z) :
  (forall iv ev, on_grid max_iv iv ev ->
     returns (calc_stat base iv ev level nature_mult is_hp)) ->
  returns
    (reverse_calc_iv_ev_for_stat observed base level nature_mult is_hp max_iv).
Proof.
  intros Hgrid. unfold reverse_calc_iv_ev_for_stat.
  destruct (scan_returns max_iv Hgrid) as [solutions ->]. cbn.
  destruct solutions; eexists; reflexivity.
Qed.

End Solver.

(** ** Round trip *)

Lemma numerator_in_bound (base iv ev level : Z) :
  0 <= base <= 255 -> 0 <= iv <= 31 -> 0 <= ev <= 252 -> 0 <= level <= 100 ->
  0 <= (2 * base + iv + ev / 4) * level <= numerator_bound.
Proof.
  intros Hb Hi He Hl. unfold numerator_bound.
  assert (0 <= ev / 4 <= 63) by (split; [apply Z.div_pos|apply Z.div_le_upper_bound]; lia).
  nia.
Qed.

Lemma ev_step_bounds (ev : Z) : ev_step ev -> 0 <= ev <= 252.
Proof. intros (k & Hk & ->). lia. Qed.

Lemma round_trip_when_defined
    (base level : Z) (nature_mult : float) (is_hp : bool) (iv ev : Z) :
  (forall iv ev, on_grid 31 iv ev ->
     returns (calc_stat base iv ev level nature_mult is_hp)) ->
  on_grid 31 iv ev ->
  round_trip base level nature_mult is_hp iv ev.
Proof.
  intros Hdef Hgrid. destruct (Hdef iv ev Hgrid) as [observed Hobs].
  exists observed. split; [exact Hobs|].
  destruct (reverse_calc_returns observed base level nature_mult is_hp 31 Hdef)
    as [[[iv' ev']|] Hrun].
  - exists iv', ev'. split; [exact Hrun|].
    apply reverse_calc_some in Hrun. tauto.
  - exfalso. exact (reverse_calc_none _ _ _ _ _ _ Hrun iv ev Hgrid Hobs).
Qed.

(** C1, as the code has it.  The round trip holds whenever the formula
    returns at every point of the search grid, and it does so for every
    base stat from 0 to 255, every level from 1 to 100 and each of the
    three nature multipliers: the solver then returns a pair that
    reproduces the stat computed at any grid point. *)
Theorem round_trip_consistent :
  (forall base level nature_mult is_hp,
     (forall iv ev, on_grid 31 iv ev ->
        returns (calc_stat base iv ev level nature_mult is_hp)) ->
     forall iv ev, on_grid 31 iv ev ->
       round_trip base level nature_mult is_hp iv ev) /\
  (forall base level nature_mult q is_hp,
     0 <= base <= 255 -> 1 <= level <= 100 ->
     nature_multiplier nature_mult q ->
     forall iv ev, on_grid 31 iv ev ->
       round_trip base level nature_mult is_hp iv ev).
Proof.
  split.
  - intros base level nature_mult is_hp Hdef iv ev Hgrid.
    apply round_trip_when_defined; assumption.
  - intros base level nature_mult q is_hp Hb Hl Hm iv ev Hgrid.
    apply round_trip_when_defined; [|exact Hgrid].
    intros iv0 ev0 [Hiv Hev]. apply ev_step_bounds in Hev.
    eexists. apply (calc_stat_exact _ _ _ _ _ q _ Hm).
    apply numerator_in_bound; lia.
Qed.

Lemma round_trip_consistent_witness : round_trip 100 100 1.1 false 31 252.
Proof.
  refine (proj2 round_trip_consistent 100 100 1.1%float (11 # 10)%Q false
            _ _ multiplier_boosted 31 252 _).
  - lia.
  - lia.
  - split; [lia|]. exists 63. lia.
Defined.

(** Where C1 stops holding: with a base stat at the edge of the float
    range the forward formula still returns at [iv = 0], but the scan of
    the solver reaches [iv = 2], where the division overflows, and
    raises. *)
Lemma round_trip_overflows :
  calc_stat (2 ^ 1023 - 2 ^ 969 - 1) 0 0 100 1 true
    = Ok (2 ^ 1024 - 2 ^ 971 + 110) /\
  reverse_calc_iv_ev_for_stat (2 ^ 1024 - 2 ^ 971 + 110)
    (2 ^ 1023 - 2 ^ 969 - 1) 100 1 true 31 = Raise OverflowError.
Proof. split; vm_compute; reflexivity. Qed.

(** ** Tie-break *)

(** C2.  An answer [Some (iv, ev)] of the solver is a grid point
    reproducing the observed value; no such point has a greater IV, and
    none with the same IV has a smaller EV.  For observed 80, base 50,
    level 50 and a neutral nature several pairs match, and the answer is
    [(31, 76)]. *)
Theorem tie_break_correct :
  (forall observed base level nature_mult is_hp max_iv iv ev,
     reverse_calc_iv_ev_for_stat observed base level nature_mult is_hp max_iv
       = Ok (Some (iv, ev)) ->
     (on_grid max_iv iv ev /\
      calc_stat base iv ev level nature_mult is_hp = Ok observed) /\
     forall iv' ev',
       on_grid max_iv iv' ev' ->
       calc_stat base iv' ev' level nature_mult is_hp = Ok observed ->
       iv' <= iv /\ (iv' = iv -> ev <= ev')) /\
  (calc_stat 50 31 80 50 1 false = Ok 80 /\
   calc_stat 50 30 80 50 1 false = Ok 80 /\
   reverse_calc_iv_ev_for_stat 80 50 50 1 false 31 = Ok (Some (31, 76))).
Proof.
  split.
  - intros observed base level nature_mult is_hp max_iv iv ev Hrun.
    apply reverse_calc_some. exact Hrun.
  - repeat split; vm_compute; reflexivity.
Qed.

Lemma tie_break_correct_witness :
  (on_grid 31 31 76 /\ calc_stat 50 31 76 50 1 false = Ok 80) /\
  forall iv' ev',
    on_grid 31 iv' ev' ->
    calc_stat 50 iv' ev' 50 1 false = Ok 80 ->
    iv' <= 31 /\ (iv' = 31 -> 76 <= ev').
Proof.
  refine (proj1 tie_break_correct 80 50 50 1%float false 31 31 76 _).
  vm_compute. reflexivity.
Defined.

(** ** Assumed IV *)

Section AssumedIV.

Context (obs_val base iv_assumed level : Z) (nm : float) (is_hp : bool).

(** The loop with [break] stops at the first EV that matches. *)
Lemma first_matching_ev_some (evs : list Z) (ev : Z) :
  first_matching_ev evs obs_val base iv_assumed level nm is_hp = Ok (Some ev) ->
  exists before after,
    evs = before ++ ev :: after /\
    calc_stat base iv_assumed ev level nm is_hp = Ok obs_val /\
    forall x, x ∈ before ->
      calc_stat base iv_assumed x level nm is_hp <> Ok obs_val.
Proof.
  induction evs as [|x evs IH]; cbn; [discriminate|].
  destruct (calc_stat base iv_assumed x level nm is_hp) as [v|e] eqn:Hx;
    [|discriminate].
  destruct (v =? obs_val) eqn:Hv.
  - intros [= <-]. apply Z.eqb_eq in Hv as ->.
    exists [], evs. repeat split; [exact Hx|].
    intros y Hy. apply elem_of_nil in Hy. destruct Hy.
  - intros Hrun. destruct (IH Hrun) as (before & after & -> & Hev & Hbefore).
    exists (x :: before), after. repeat split; [exact Hev|].
    intros y Hy. apply elem_of_cons in Hy as [->|Hy]; [|apply Hbefore, Hy].
    rewrite Hx. apply Z.eqb_neq in Hv. congruence.
Qed.

Lemma first_matching_ev_none (evs : list Z) :
  first_matching_ev evs obs_val base iv_assumed level nm is_hp = Ok None ->
  forall x, x ∈ evs -> calc_stat base iv_assumed x level nm is_hp <> Ok obs_val.
Proof.
  induction evs as [|x evs IH]; cbn.
  - intros _ y Hy. apply elem_of_nil in Hy. destruct Hy.
  - destruct (calc_stat base iv_assumed x level nm is_hp) as [v|e] eqn:Hx;
      [|discriminate].
    destruct (v =? obs_val) eqn:Hv; [discriminate|].
    intros Hrun y Hy. apply elem_of_cons in Hy as [->|Hy]; [|apply IH; assumption].
    rewrite Hx. apply Z.eqb_neq in Hv. congruence.
Qed.

Lemma first_matching_ev_returns (evs : list Z) :
  (forall x, x ∈ evs -> returns (calc_stat base iv_assumed x level nm is_hp)) ->
  returns (first_matching_ev evs obs_val base iv_assumed level nm is_hp).
Proof.
  induction evs as [|x evs IH]; cbn; intros Hdef.
  - eexists. reflexivity.
  - destruct (Hdef x) as [v ->]; [left|].
    destruct (v =? obs_val); [eexists; reflexivity|].
    apply IH. intros y Hy. apply Hdef. right. exact Hy.
Qed.

(** [range(0, 253, 4)] is increasing: what stands before [ev] is below it. *)
Lemma range_step_before (before after : list Z) (ev x : Z) :
  Py.range_step 0 253 4 = before ++ ev :: after -> x ∈ before -> x < ev.
Proof.
  intros Hsplit Hx.
  assert (Hnth : forall i y, Py.range_step 0 253 4 !! i = Some y -> y = 4 * Z.of_nat i).
  { intros i y. unfold Py.range_step. rewrite list_lookup_fmap.
    destruct (seqZ 0 ((253 - 0 + 4 - 1) / 4) !! i) as [k|] eqn:Hk; [|discriminate].
    apply lookup_seqZ in Hk as [-> _]. cbn. intros [= <-]. lia. }
  apply list_elem_of_lookup in Hx as [i Hi].
  assert (Hlt : (i < length before)%nat) by (eapply lookup_lt_Some; exact Hi).
  rewrite (Hnth i x), (Hnth (length before) ev).
  - lia.
  - rewrite Hsplit. apply list_lookup_middle. reflexivity.
  - rewrite Hsplit, lookup_app_l; assumption.
Qed.

(** The EV found with the IV held fixed is the least matching grid EV. *)
Lemma back_calc_ev_some (ev : Z) :
  back_calc_ev obs_val base iv_assumed level nm is_hp = Ok (Some ev) ->
  ev_step ev /\
  calc_stat base iv_assumed ev level nm is_hp = Ok obs_val /\
  forall ev', ev_step ev' ->
    calc_stat base iv_assumed ev' level nm is_hp = Ok obs_val -> ev <= ev'.
Proof.
  unfold back_calc_ev. intros Hrun.
  apply first_matching_ev_some in Hrun as (before & after & Hsplit & Hev & Hbefore).
  assert (Hin : ev ∈ Py.range_step 0 253 4)
    by (rewrite Hsplit, elem_of_app; right; left).
  split; [apply range_step_spec, Hin|]. split; [exact Hev|].
  intros ev' Hstep Hev'. apply range_step_spec in Hstep.
  rewrite Hsplit in Hstep. apply elem_of_app in Hstep as [Hb|Ha].
  - destruct (Hbefore ev' Hb Hev').
  - apply elem_of_cons in Ha as [->|Ha]; [lia|].
    apply list_elem_of_split in Ha as (l1 & l2 & ->).
    assert (ev < ev'); [|lia].
    apply (range_step_before (before ++ ev :: l1) l2 ev' ev).
    + rewrite Hsplit, <- app_assoc. reflexivity.
    + rewrite elem_of_app. right. left.
Qed.

Lemma back_calc_ev_none :
  back_calc_ev obs_val base iv_assumed level nm is_hp = Ok None ->
  forall ev, ev_step ev ->
    calc_stat base iv_assumed ev level nm is_hp <> Ok obs_val.
Proof.
  unfold back_calc_ev. intros Hrun ev Hstep.
  apply (first_matching_ev_none _ Hrun). apply range_step_spec, Hstep.
Qed.

Lemma back_calc_ev_returns :
  (forall ev, ev_step ev -> returns (calc_stat base iv_assumed ev level nm is_hp)) ->
  returns (back_calc_ev obs_val base iv_assumed level nm is_hp).
Proof.
  intros Hdef. apply first_matching_ev_returns.
  intros x Hx. apply Hdef, range_step_spec, Hx.
Qed.

End AssumedIV.

Lemma reverse_calc_defined
    (observed base level : Z) (nature_mult : float) (is_hp : bool) (max_iv : Z)
    (r : option (Z * Z)) :
  reverse_calc_iv_ev_for_stat observed base level nature_mult is_hp max_iv = Ok r ->
  forall iv ev, on_grid max_iv iv ev ->
    returns (calc_stat base iv ev level nature_mult is_hp).
Proof.
  unfold reverse_calc_iv_ev_for_stat. intros Hrun.
  match type of Hrun with (?scan ≫= _) = _ =>
    destruct scan as [solutions|e] eqn:Hscan; [|discriminate Hrun] end.
  apply scan_sound in Hscan as [Hdef _]. exact Hdef.
Qed.

(** How the loop with the IV held fixed relates to the solver capped at
    that IV, when the solver returns. *)
Lemma assumed_iv_against_solver
    (observed base level : Z) (nm : float) (is_hp : bool) (known_iv : Z)
    (r : option (Z * Z)) :
  0 <= known_iv ->
  reverse_calc_iv_ev_for_stat observed base level nm is_hp known_iv = Ok r ->
  match back_calc_ev observed base known_iv level nm is_hp with
  | Ok (Some ev) => r = Some (known_iv, ev)
  | Ok None => r = None \/ exists iv ev, r = Some (iv, ev) /\ iv < known_iv
  | Raise _ => False
  end.
Proof.
  intros Hk Hrun.
  pose proof (reverse_calc_defined _ _ _ _ _ _ _ Hrun) as Hdef.
  destruct (back_calc_ev_returns observed base known_iv level nm is_hp)
    as [found Hfound].
  { intros ev Hev. apply Hdef. split; [lia|exact Hev]. }
  rewrite Hfound. destruct found as [ev|].
  - apply back_calc_ev_some in Hfound as (Hstep & Hev & Hleast).
    assert (Hgrid : on_grid known_iv known_iv ev) by (split; [lia|exact Hstep]).
    destruct r as [[iv' ev']|].
    + apply reverse_calc_some in Hrun as [[[Hiv' Hstep'] Hcalc'] Hbest].
      destruct (Hbest known_iv ev Hgrid Hev) as [Hle Htie].
      assert (iv' = known_iv) as -> by lia.
      specialize (Hleast ev' Hstep' Hcalc'). specialize (Htie eq_refl).
      f_equal. f_equal. lia.
    + destruct (reverse_calc_none _ _ _ _ _ _ Hrun known_iv ev Hgrid Hev).
  - destruct r as [[iv' ev']|]; [right|left; reflexivity].
    exists iv', ev'. split; [reflexivity|].
    apply reverse_calc_some in Hrun as [[[Hiv' Hstep'] Hcalc'] _].
    destruct (Z.eq_dec iv' known_iv) as [->|Hne]; [|lia].
    destruct (back_calc_ev_none _ _ _ _ _ _ Hfound ev' Hstep' Hcalc').
Qed.

(** C7, as the code has it.  When the solver capped at [known_iv] returns
    [r]: the loop that holds the IV at [known_iv] finds [ev] exactly when
    [r] is [(known_iv, ev)], and it finds nothing exactly when [r] is
    [None] or a pair with a smaller IV (the solver scans every IV from 0 to
    its cap, not the cap alone). *)
Theorem assumed_iv_mode :
  forall observed base level nm is_hp known_iv r,
    0 <= known_iv ->
    reverse_calc_iv_ev_for_stat observed base level nm is_hp known_iv = Ok r ->
    (forall ev,
       back_calc_ev observed base known_iv level nm is_hp = Ok (Some ev) <->
       r = Some (known_iv, ev)) /\
    (back_calc_ev observed base known_iv level nm is_hp = Ok None <->
     r = None \/ exists iv ev, r = Some (iv, ev) /\ iv < known_iv).
Proof.
  intros observed base level nm is_hp known_iv r Hk Hrun.
  pose proof (assumed_iv_against_solver _ _ _ _ _ _ _ Hk Hrun) as Hrel.
  destruct (back_calc_ev observed base known_iv level nm is_hp)
    as [[ev0|]|e]; [| |destruct Hrel].
  - subst r. split.
    + intros ev. split; intros [= ->]; reflexivity.
    + split; [discriminate|].
      intros [Hnone|(iv & ev & [= -> ->] & Hlt)]; [discriminate|lia].
  - split.
    + intros ev. split; [discriminate|].
      intros ->. destruct Hrel as [Hnone|(iv & ev' & [= -> ->] & Hlt)];
        [discriminate|lia].
    + split; [intros _; exact Hrel|reflexivity].
Qed.

Lemma assumed_iv_mode_witness :
  (forall ev,
     back_calc_ev 80 50 31 50 1 false = Ok (Some ev) <-> Some (31, 76) = Some (31, ev)) /\
  (back_calc_ev 80 50 31 50 1 false = Ok None <->
   Some (31, 76) = None \/ exists iv ev, Some (31, 76) = Some (iv, ev) /\ iv < 31).
Proof.
  refine (assumed_iv_mode 80 50 50 1%float false 31 (Some (31, 76)) _ _).
  - lia.
  - vm_compute. reflexivity.
Defined.

(** Where C7 stops holding: observed 55 at base 50, level 50, neutral
    nature.  No EV reproduces 55 at IV 31, so the fixed-IV loop finds
    nothing; the solver capped at 31 answers [(1, 0)]. *)
Lemma assumed_iv_differs :
  back_calc_ev 55 50 31 50 1 false = Ok None /\
  reverse_calc_iv_ev_for_stat 55 50 50 1 false 31 = Ok (Some (1, 0)).
Proof. split; vm_compute; reflexivity. Qed.

(** ** The tolerance *)

(** C8, as the code has it.  For a base stat from 0 to 255 and the other
    arguments in their legal ranges, the value [calc_stat] computes in
    binary floating point, tolerance included, is the floor of
    [inner * multiplier] over the rationals. *)
Theorem epsilon_harmless :
  forall base iv ev level nature_mult q,
    0 <= base <= 255 -> 0 <= iv <= 31 -> 0 <= ev <= 252 -> 1 <= level <= 100 ->
    nature_multiplier nature_mult q ->
    calc_stat base iv ev level nature_mult false
      = Ok (exact_stat base iv ev level q false).
Proof.
  intros base iv ev level nature_mult q Hb Hi He Hl Hm.
  apply calc_stat_exact; [exact Hm|]. apply numerator_in_bound; lia.
Qed.

Lemma epsilon_harmless_witness :
  calc_stat 100 31 252 100 1.1 false
    = Ok (exact_stat 100 31 252 100 (11 # 10) false).
Proof.
  refine (epsilon_harmless 100 31 252 100 1.1%float (11 # 10)%Q _ _ _ _
            multiplier_boosted); lia.
Defined.

(** Where C8 stops holding: at base [2^52] and level 100 the exact value
    [2^53 + 5] is not a binary64 number, the conversion of [inner] rounds
    it to [2^53 + 4], and that is what the code returns. *)
Lemma epsilon_floor_inexact :
  calc_stat (2 ^ 52) 0 0 100 1 false = Ok (2 ^ 53 + 4) /\
  exact_stat (2 ^ 52) 0 0 100 1 false = 2 ^ 53 + 5.
Proof. split; vm_compute; reflexivity. Qed.

(** ** Arguments out of range *)

(** C9, as the code has it.  No argument is checked.  Whenever the
    numerator [(2*base + iv + ev//4) * level] lies between 0 and
    [numerator_bound] and the multiplier is one of the three, [calc_stat]
    returns the value of the formula, wherever [level], [iv] and [ev] lie.
    That holds on a box that reaches well past the legal ranges (IV up to
    100, EV up to 400, level from 0 to 250), and on it the solver returns
    too, whatever the observed value and with a cap up to 100. *)
Theorem out_of_range_computed :
  (forall base iv ev level nature_mult q is_hp,
     nature_multiplier nature_mult q ->
     0 <= (2 * base + iv + ev / 4) * level <= numerator_bound ->
     calc_stat base iv ev level nature_mult is_hp
       = Ok (exact_stat base iv ev level q is_hp)) /\
  (forall base iv ev level nature_mult q is_hp,
     nature_multiplier nature_mult q ->
     0 <= base <= 100 -> 0 <= iv <= 100 -> 0 <= ev <= 400 -> 0 <= level <= 250 ->
     calc_stat base iv ev level nature_mult is_hp
       = Ok (exact_stat base iv ev level q is_hp)) /\
  (forall observed base level nature_mult q is_hp max_iv,
     nature_multiplier nature_mult q ->
     0 <= base <= 100 -> 0 <= level <= 250 -> max_iv <= 100 ->
     returns
       (reverse_calc_iv_ev_for_stat observed base level nature_mult is_hp max_iv)).
Proof.
  assert (Hbox : forall base iv ev level,
             0 <= base <= 100 -> 0 <= iv <= 100 -> 0 <= ev <= 400 ->
             0 <= level <= 250 ->
             0 <= (2 * base + iv + ev / 4) * level <= numerator_bound).
  { intros base iv ev level Hb Hi He Hl. unfold numerator_bound.
    assert (0 <= ev / 4 <= 100)
      by (split; [apply Z.div_pos|apply Z.div_le_upper_bound]; lia).
    nia. }
  split; [|split].
  - intros base iv ev level nature_mult q is_hp Hm Hn.
    apply calc_stat_exact; assumption.
  - intros base iv ev level nature_mult q is_hp Hm Hb Hi He Hl.
    apply calc_stat_exact; [exact Hm|]. apply Hbox; assumption.
  - intros observed base level nature_mult q is_hp max_iv Hm Hb Hl Hmax.
    apply reverse_calc_returns. intros iv ev [Hiv Hev].
    apply ev_step_bounds in Hev.
    eexists. apply (calc_stat_exact _ _ _ _ _ q _ Hm). apply Hbox; lia.
Qed.

Lemma out_of_range_computed_witness :
  calc_stat 50 32 256 101 1 false = Ok (exact_stat 50 32 256 101 1 false).
Proof.
  refine (proj1 (proj2 out_of_range_computed) 50 32 256 101 1%float 1%Q false
            multiplier_neutral _ _ _ _); lia.
Defined.

(** Where C9 stops holding: IV 32, EV 256 and level 101 are all out of
    range, and [calc_stat] returns 202; the solver, asked for 202 at level
    101 with a cap of 40, returns a pair with IV 40. *)
Lemma out_of_range_not_signalled :
  calc_stat 50 32 256 101 1 false = Ok 202 /\
  reverse_calc_iv_ev_for_stat 202 50 101 1 false 40 = Ok (Some (40, 224)).
Proof. split; vm_compute; reflexivity. Qed.

(** ** The EV clamp *)

(** The [while] loop, read off its definition. *)
Lemma clamp_loop_while (evs : dict) (total : Z) :
  clamp_loop evs total =
  if total >? 510 then
    match clamp_turn evs with
    | Break => Ok evs
    | Throw e => Raise e
    | Continue evs' => clamp_loop evs' (total - 4)
    end
  else Ok evs.
Proof.
  funelim (clamp_loop evs total); rewrite Z.gtb_ltb;
    destruct (Z.ltb_spec 510 total); try lia;
    try match goal with Hturn : clamp_turn _ = _ |- _ => rewrite Hturn end;
    reflexivity.
Qed.

Lemma foldl_add_shift (a : Z) (l : list Z) :
  foldl Z.add a l = a + foldl Z.add 0 l.
Proof.
  revert a. induction l as [|y l IH]; intros a; cbn [foldl]; [lia|].
  rewrite (IH (a + y)), (IH (0 + y)). lia.
Qed.

Lemma py_sum_cons (x : Z) (l : list Z) : py_sum (x :: l) = x + py_sum l.
Proof. unfold py_sum. cbn [foldl]. rewrite foldl_add_shift. lia. Qed.

Lemma py_sum_app (l1 l2 : list Z) : py_sum (l1 ++ l2) = py_sum l1 + py_sum l2.
Proof.
  induction l1 as [|x l1 IH]; [reflexivity|].
  cbn [app]. rewrite !py_sum_cons, IH. lia.
Qed.

Lemma py_sum_nonpositive (l : list Z) : Forall (fun v => v <= 0) l -> py_sum l <= 0.
Proof.
  induction 1 as [|x l Hx _ IH]; [reflexivity|]. rewrite py_sum_cons. lia.
Qed.

(** The scan for the greatest value: either nothing exceeds the running
    maximum, or the answer is the first item holding the greatest value. *)
Lemma find_max_from (l : list (string * Z)) (st : option string) (mx : Z) :
  let r := foldl (fun '(stat_to_reduce, max_ev) '(s, v) =>
                    if v >? max_ev then (Some s, v) else (stat_to_reduce, max_ev))
                 (st, mx) l in
  (r = (st, mx) /\ Forall (fun kv => kv.2 <= mx) l) \/
  (exists before s after,
      l = before ++ (s, r.2) :: after /\ r.1 = Some s /\ mx < r.2 /\
      Forall (fun kv => kv.2 < r.2) before /\
      Forall (fun kv => kv.2 <= r.2) after).
Proof.
  revert st mx. induction l as [|[s v] l IH]; intros st mx; cbn.
  - left. split; [reflexivity|constructor].
  - rewrite Z.gtb_ltb. destruct (Z.ltb_spec mx v) as [Hlt|Hge].
    + right. destruct (IH (Some s) v) as [[Heq Hall]|(before & s' & after & Hl & Hs & Hm & Hb & Ha)].
      * rewrite Heq. exists [], s, l. cbn. repeat split; [lia|constructor|exact Hall].
      * exists ((s, v) :: before), s', after. rewrite Hl at 1. cbn.
        repeat split; [exact Hs|lia| |exact Ha].
        constructor; [exact Hm|exact Hb].
    + destruct (IH st mx) as [[Heq Hall]|(before & s' & after & Hl & Hs & Hm & Hb & Ha)].
      * left. split; [exact Heq|]. constructor; [exact Hge|exact Hall].
      * right. exists ((s, v) :: before), s', after. rewrite Hl at 1. cbn.
        repeat split; [exact Hs|exact Hm| |exact Ha].
        constructor; [cbn; lia|exact Hb].
Qed.

Lemma find_max_spec (evs : dict) :
  (find_max evs = (None, 0) /\ Forall (fun kv => kv.2 <= 0) evs) \/
  (exists before s m after,
      find_max evs = (Some s, m) /\
      evs = before ++ (s, m) :: after /\ 0 < m /\
      Forall (fun kv => kv.2 < m) before /\
      Forall (fun kv => kv.2 <= m) after).
Proof.
  destruct (find_max_from evs None 0) as [[Heq Hall]|(before & s & after & Hl & Hs & Hm & Hb & Ha)].
  - left. split; assumption.
  - right. fold (find_max evs) in *. destruct (find_max evs) as [st m]. cbn in *. subst st.
    exists before, s, m, after. repeat split; assumption.
Qed.

Lemma dict_get_middle (before after : dict) (s : string) (m : Z) :
  s ∉ before.*1 -> dict_get (before ++ (s, m) :: after) s = Some m.
Proof.
  induction before as [|[k v] before IH]; cbn; intros Hs.
  - rewrite String.eqb_refl. reflexivity.
  - destruct (String.eqb_spec k s) as [->|Hne].
    + destruct Hs. left.
    + apply IH. intros Hin. apply Hs. right. exact Hin.
Qed.

Lemma dict_set_middle (before after : dict) (s : string) (m v : Z) :
  s ∉ before.*1 ->
  dict_set (before ++ (s, m) :: after) s v = before ++ (s, v) :: after.
Proof.
  induction before as [|[k w] before IH]; cbn; intros Hs.
  - rewrite String.eqb_refl. reflexivity.
  - destruct (String.eqb_spec k s) as [->|Hne].
    + destruct Hs. left.
    + rewrite IH; [reflexivity|]. intros Hin. apply Hs. right. exact Hin.
Qed.

Lemma shrunk_refl (evs : dict) :
  Forall (fun kv => 0 <= kv.2 /\ (4 | kv.2)) evs -> shrunk evs evs.
Proof.
  induction 1 as [|kv evs [Hpos Hdiv] _ IH]; constructor; [|exact IH].
  repeat split; [lia|lia|exact Hdiv].
Qed.

Lemma shrunk_keys (evs0 evs : dict) : shrunk evs0 evs -> evs.*1 = evs0.*1.
Proof.
  induction 1 as [|a b evs0 evs (Hk & _) _ IH]; [reflexivity|].
  cbn. rewrite Hk, IH. reflexivity.
Qed.

Lemma shrunk_get (evs0 evs : dict) (k : string) (v : Z) :
  shrunk evs0 evs -> dict_get evs0 k = Some v ->
  exists v', dict_get evs k = Some v' /\ 0 <= v' <= v /\ (4 | v').
Proof.
  induction 1 as [|[k0 v0] [k1 v1] evs0 evs (Hk & Hle & Hdiv) _ IH]; cbn;
    [discriminate|].
  cbn in Hk, Hle, Hdiv. subst k1.
  destruct (String.eqb k0 k); [|exact IH].
  intros [= <-]. exists v1. repeat split; [lia|lia|exact Hdiv].
Qed.

(** While the total is above 510 a turn of the loop takes 4 from one
    stat and leaves a table of the same shape. *)
Lemma clamp_turn_continues (evs0 evs : dict) :
  NoDup evs.*1 -> shrunk evs0 evs -> 510 < py_sum evs.*2 ->
  exists evs',
    clamp_turn evs = Continue evs' /\
    NoDup evs'.*1 /\ shrunk evs0 evs' /\ py_sum evs'.*2 = py_sum evs.*2 - 4.
Proof.
  intros Hnodup Hshrunk Htotal.
  destruct (find_max_spec evs)
    as [[_ Hall]|(before & s & m & after & Hfind & -> & Hm & _ & _)].
  - assert (py_sum evs.*2 <= 0); [|lia].
    apply py_sum_nonpositive. rewrite Forall_fmap. exact Hall.
  - assert (Hfresh : s ∉ before.*1).
    { rewrite fmap_app in Hnodup. apply NoDup_app in Hnodup as (_ & Hdisj & _).
      intros Hin. apply (Hdisj s Hin). left. }
    apply Forall2_app_inv_r in Hshrunk
      as (before0 & rest0 & Hbefore & Hrest & ->).
    apply Forall2_cons_inv_r in Hrest
      as ([s0 m0] & after0 & (Hk & Hle & Hdiv) & Hafter & ->).
    cbn in Hk, Hle, Hdiv.
    assert (4 <= m) by (destruct Hdiv as [k ->]; lia).
    exists (before ++ (s, m - 4) :: after).
    unfold clamp_turn. rewrite Hfind.
    destruct (Z.leb_spec m 0) as [|_]; [lia|].
    rewrite dict_get_middle, dict_set_middle by exact Hfresh.
    rewrite Z.max_r by lia.
    split; [reflexivity|]. split; [|split].
    + rewrite fmap_app in *. exact Hnodup.
    + apply Forall2_app; [exact Hbefore|].
      constructor; [|exact Hafter]. cbn.
      repeat split; [exact Hk|lia|lia|].
      apply Z.divide_sub_r; [exact Hdiv|exists 1; lia].
    + rewrite !fmap_app, !py_sum_app. cbn [fmap list_fmap snd].
      rewrite !py_sum_cons. cbn. lia.
Qed.

Lemma clamp_loop_invariant (evs0 : dict) (n : nat) :
  forall evs total,
    (Z.to_nat (total - 510) <= n)%nat ->
    NoDup evs.*1 -> shrunk evs0 evs -> total = py_sum evs.*2 ->
    exists r, clamp_loop evs total = Ok r /\ shrunk evs0 r /\ py_sum r.*2 <= 510.
Proof.
  induction n as [|n IH]; intros evs total Hn Hnodup Hshrunk Htotal;
    rewrite clamp_loop_while, Z.gtb_ltb;
    destruct (Z.ltb_spec 510 total) as [Hgt|Hle];
    try (exists evs; repeat split; [exact Hshrunk|lia]); [lia|].
  destruct (clamp_turn_continues evs0 evs Hnodup Hshrunk)
    as (evs' & -> & Hnodup' & Hshrunk' & Hsum'); [lia|].
  apply IH; [lia|exact Hnodup'|exact Hshrunk'|lia].
Qed.

(** C3.  For a table with distinct keys whose values are non-negative
    multiples of 4 (a table over the six stat keys is one), the clamp
    returns a table over the same keys whose values sum to at most 510,
    each a non-negative multiple of 4 not above the value the key had. *)
Theorem budget_invariant :
  forall evs : dict,
    NoDup evs.*1 ->
    Forall (fun kv => 0 <= kv.2 /\ (4 | kv.2)) evs ->
    exists r,
      clamp_ev_distribution evs = Ok r /\
      py_sum r.*2 <= 510 /\
      r.*1 = evs.*1 /\
      forall k v, dict_get evs k = Some v ->
        exists v', dict_get r k = Some v' /\ 0 <= v' <= v /\ (4 | v').
Proof.
  intros evs Hnodup Hvalid.
  assert (Hloop : exists r, clamp_ev_distribution evs = Ok r /\
                            shrunk evs r /\ py_sum r.*2 <= 510).
  { unfold clamp_ev_distribution.
    destruct (Z.leb_spec (py_sum evs.*2) 510) as [Hle|Hgt].
    - exists evs. repeat split; [apply shrunk_refl, Hvalid|exact Hle].
    - apply (clamp_loop_invariant evs _ evs _ (Nat.le_refl _) Hnodup);
        [apply shrunk_refl, Hvalid|reflexivity]. }
  destruct Hloop as (r & Hrun & Hshrunk & Hsum). exists r.
  split; [exact Hrun|]. split; [exact Hsum|]. split.
  - apply shrunk_keys, Hshrunk.
  - intros k v Hget. exact (shrunk_get _ _ k v Hshrunk Hget).
Qed.

Lemma budget_invariant_witness :
  exists r,
    clamp_ev_distribution three_maxed = Ok r /\
    py_sum r.*2 <= 510 /\
    r.*1 = three_maxed.*1 /\
    forall k v, dict_get three_maxed k = Some v ->
      exists v', dict_get r k = Some v' /\ 0 <= v' <= v /\ (4 | v').
Proof.
  refine (budget_invariant three_maxed _ _).
  - apply (bool_decide_unpack _). vm_compute. exact I.
  - unfold three_maxed. repeat constructor; cbn; try lia.
    all: try (exists 0; reflexivity); try (exists 63; reflexivity).
Defined.

Lemma greatest_ev_cons (kv : string * Z) (l : dict) :
  greatest_ev (kv :: l) = Z.max kv.2 (greatest_ev l).
Proof. reflexivity. Qed.

Lemma greatest_ev_nonneg (l : dict) : 0 <= greatest_ev l.
Proof.
  induction l as [|kv l IH]; [reflexivity|]. rewrite greatest_ev_cons. lia.
Qed.

Lemma greatest_ev_app (l1 l2 : dict) :
  greatest_ev (l1 ++ l2) = Z.max (greatest_ev l1) (greatest_ev l2).
Proof.
  induction l1 as [|kv l1 IH]; cbn [app].
  - pose proof (greatest_ev_nonneg l2). change (greatest_ev []) with 0. lia.
  - rewrite !greatest_ev_cons, IH. lia.
Qed.

Lemma greatest_ev_bound (l : dict) (m : Z) :
  0 <= m -> Forall (fun kv => kv.2 <= m) l -> greatest_ev l <= m.
Proof.
  intros Hm. induction 1 as [|kv l Hkv _ IH]; [exact Hm|].
  rewrite greatest_ev_cons. lia.
Qed.

Lemma find_first_middle (before after : dict) (s : string) (m : Z) :
  Forall (fun kv => kv.2 < m) before ->
  List.find (fun kv => kv.2 =? m) (before ++ (s, m) :: after) = Some (s, m).
Proof.
  induction 1 as [|kv before Hkv _ IH]; cbn.
  - rewrite Z.eqb_refl. reflexivity.
  - destruct (Z.eqb_spec kv.2 m); [lia|exact IH].
Qed.

(** A turn of the loop is the step of the description, as soon as the
    greatest EV is 4 or more. *)
Lemma clamp_turn_refines (evs : dict) :
  NoDup evs.*1 -> 4 <= greatest_ev evs ->
  clamp_turn evs = Continue (reduce_first_greatest evs).
Proof.
  intros Hnodup Hfour.
  destruct (find_max_spec evs)
    as [[_ Hall]|(before & s & m & after & Hfind & -> & Hm & Hbefore & Hafter)].
  - pose proof (greatest_ev_bound evs 0 (Z.le_refl 0) Hall). lia.
  - assert (Hfresh : s ∉ before.*1).
    { rewrite fmap_app in Hnodup. apply NoDup_app in Hnodup as (_ & Hdisj & _).
      intros Hin. apply (Hdisj s Hin). left. }
    assert (Hgreatest : greatest_ev (before ++ (s, m) :: after) = m).
    { rewrite greatest_ev_app, greatest_ev_cons. cbn [snd].
      pose proof (greatest_ev_nonneg before).
      pose proof (greatest_ev_bound after m ltac:(lia) Hafter).
      assert (greatest_ev before <= m); [|lia].
      apply greatest_ev_bound; [lia|].
      eapply Forall_impl; [exact Hbefore|]. cbn. intros; lia. }
    unfold clamp_turn, reduce_first_greatest.
    rewrite Hfind, Hgreatest, (find_first_middle _ _ _ _ Hbefore).
    destruct (Z.leb_spec m 0) as [|_]; [lia|].
    rewrite dict_get_middle by exact Hfresh.
    rewrite Z.max_r by lia. reflexivity.
Qed.

(** C4, as the code has it.  On the table with Attack, Special Attack and
    Speed at 252 the clamp takes 4, 62 times over, from the first stat
    holding the greatest EV, and returns Attack 168, Special Attack 168,
    Speed 172: a total of 508.  One turn earlier the total is 512. *)
Theorem clamp_scenario :
  clamp_ev_distribution three_maxed
    = Ok (Nat.iter 62 reduce_first_greatest three_maxed) /\
  Nat.iter 62 reduce_first_greatest three_maxed
    = [("hp", 0); ("atk", 168); ("def", 0); ("spa", 168); ("spd", 0);
       ("spe", 172)]%string /\
  py_sum (Nat.iter 62 reduce_first_greatest three_maxed).*2 = 508 /\
  py_sum (Nat.iter 61 reduce_first_greatest three_maxed).*2 = 512.
Proof. repeat split; vm_compute; reflexivity. Qed.

(** Where C4 stops holding: the totals reachable from 756 in steps of 4
    skip 510, and the clamp ends at 508. *)
Lemma clamp_scenario_not_510 :
  exists r,
    clamp_ev_distribution three_maxed = Ok r /\
    py_sum r.*2 = 508 /\ py_sum r.*2 <> 510.
Proof. eexists. split; [vm_compute; reflexivity|]. split; vm_compute; congruence. Qed.


(** ** Natures

    C10.  A nature that is absent from [NATURE_EFFECTS] -- [None], the
    empty string, a neutral or a misspelled name -- gives the multiplier
    1.0 for every stat key: it is taken as neutral and nothing is
    signalled. *)
Theorem unknown_nature_neutral :
  forall (nature : option string) (stat_key : string),
    (forall n, nature = Some n -> NATURE_EFFECTS !! n = None) ->
    get_nature_multiplier nature stat_key = 1%float.
Proof.
  intros [n|] stat_key Hunknown; [|reflexivity].
  destruct n as [|c n]; [reflexivity|].
  unfold get_nature_multiplier. rewrite (Hunknown _ eq_refl). reflexivity.
Qed.

Lemma unknown_nature_neutral_witness :
  get_nature_multiplier (Some "Hardy"%string) "atk" = 1%float.
Proof.
  refine (unknown_nature_neutral (Some "Hardy"%string) "atk" _).
  intros n [= <-]. vm_compute. reflexivity.
Defined.

(** ** Name lists *)

Lemma dict_of_items_snoc {V} (items : list (string * V)) (k : string) (v : V) :
  dict_of_items (items ++ [(k, v)]) = <[k := v]> (dict_of_items items).
Proof. unfold dict_of_items. rewrite foldl_app. reflexivity. Qed.

(** The dictionary [low_map] of line 242 keeps, for each lower-case form,
    the last entry of the list that has it. *)
Lemma low_map_lookup (valid_list : list string) (k : string) :
  dict_of_items ((fun v => (Str.lower v, v)) <$> valid_list) !! k
  = last_ignoring_case valid_list k.
Proof.
  unfold last_ignoring_case.
  induction valid_list as [|x l IH] using rev_ind; [reflexivity|].
  rewrite fmap_app. cbn [fmap list_fmap]. rewrite dict_of_items_snoc.
  rewrite List.filter_app. cbn [List.filter].
  rewrite lookup_insert. cbn [fst snd].
  destruct (String.eqb_spec (Str.lower x) k) as [->|Hne].
  - rewrite decide_True by reflexivity. rewrite last_snoc. reflexivity.
  - rewrite decide_False by exact Hne. rewrite app_nil_r. exact IH.
Qed.

Lemma last_filter_some {A} (p : A -> bool) (l : list A) (x : A) :
  last (List.filter p l) = Some x -> x ∈ l /\ p x = true.
Proof.
  intros Hlast. apply last_Some_elem_of in Hlast.
  apply list_elem_of_In, List.filter_In in Hlast as [Hin Hp].
  split; [apply list_elem_of_In, Hin|exact Hp].
Qed.

Lemma last_filter_none {A} (p : A -> bool) (l : list A) :
  last (List.filter p l) = None <-> forall x, x ∈ l -> p x = false.
Proof.
  rewrite last_None. split.
  - intros Hnil x Hx. destruct (p x) eqn:Hp; [|reflexivity].
    assert (Hin : In x (List.filter p l))
      by (apply List.filter_In; split; [apply list_elem_of_In, Hx|exact Hp]).
    rewrite Hnil in Hin. destruct Hin.
  - intros Hall. induction l as [|y l IH]; [reflexivity|]. cbn.
    rewrite (Hall y) by left. apply IH. intros x Hx. apply Hall. right. exact Hx.
Qed.

Lemma lower_empty (s : string) : Str.lower s = EmptyString -> s = EmptyString.
Proof. destruct s; [reflexivity|discriminate]. Qed.

Section Resolution.

Context (get_close_matches : string -> list string -> nat -> float -> list string).

(** The first layer: an entry equal to the input ignoring case is
    returned at once, whatever the mode, and the terminal is not
    touched. *)
Lemma validate_input_exact
    (user_input : string) (valid_list : list string) (mode : Z) (label : string)
    (w : console) (c : string) :
  last_ignoring_case valid_list (Str.lower (normalized user_input)) = Some c ->
  validate_input get_close_matches user_input valid_list mode label w = (Ok c, w).
Proof.
  intros Hlast. unfold validate_input.
  destruct (String.eqb_spec user_input EmptyString) as [->|Hne].
  - apply last_filter_some in Hlast as [_ Heq].
    apply String.eqb_eq in Heq.
    change (Str.lower (normalized EmptyString)) with EmptyString in Heq.
    apply lower_empty in Heq as ->. reflexivity.
  - fold (normalized user_input). rewrite low_map_lookup, Hlast. reflexivity.
Qed.

End Resolution.

(** ** Name lists, over any text functions *)

(** On ASCII text the validation over [ascii_text] is [validate_input]. *)
Lemma validate_input_for_ascii
    (get_close_matches : string -> list string -> nat -> float -> list string) :
  validate_input_for ascii_text get_close_matches = validate_input get_close_matches.
Proof. reflexivity. Qed.

(** The ASCII functions have the two laws; so have [str.strip] and
    [str.lower], which trim nothing from the empty string and give at
    least one character for each character. *)
Lemma ascii_text_laws : text_laws ascii_text.
Proof.
  split; [reflexivity|]. intros s Hs. destruct s; [reflexivity|discriminate Hs].
Qed.

Section AnyText.

Context (t : text) (laws : text_laws t).
Context (get_close_matches : string -> list string -> nat -> float -> list string).

Lemma low_map_lookup_for (valid_list : list string) (k : string) :
  dict_of_items ((fun v => (text_lower t v, v)) <$> valid_list) !! k
  = last_ignoring_case_for t valid_list k.
Proof.
  unfold last_ignoring_case_for.
  induction valid_list as [|x l IH] using rev_ind; [reflexivity|].
  rewrite fmap_app. cbn [fmap list_fmap]. rewrite dict_of_items_snoc.
  rewrite List.filter_app. cbn [List.filter].
  rewrite lookup_insert. cbn [fst snd].
  destruct (String.eqb_spec (text_lower t x) k) as [->|Hne].
  - rewrite decide_True by reflexivity. rewrite last_snoc. reflexivity.
  - rewrite decide_False by exact Hne. rewrite app_nil_r. exact IH.
Qed.

Lemma normalized_for_empty : normalized_for t EmptyString = EmptyString.
Proof.
  unfold normalized_for. rewrite (strip_of_empty t laws). cbn.
  apply (strip_of_empty t laws).
Qed.

(** [validate_input], layer by layer. *)
Lemma validate_input_for_layers
    (user_input : string) (valid_list : list string) (mode : Z) (label : string)
    (w : console) :
  validate_input_for t get_close_matches user_input valid_list mode label w =
  if String.eqb user_input EmptyString then (Ok user_input, w)
  else match last_ignoring_case_for t valid_list
               (text_lower t (normalized_for t user_input)) with
       | Some v => (Ok v, w)
       | None =>
           if bool_decide
                (title_case_showdown_for t (normalized_for t user_input) ∈ valid_list)
           then (Ok (title_case_showdown_for t (normalized_for t user_input)), w)
           else settle_for t
                  (candidates_for t get_close_matches (normalized_for t user_input)
                     valid_list)
                  (text_strip t user_input) mode label w
       end.
Proof.
  unfold validate_input_for.
  destruct (String.eqb user_input EmptyString); [reflexivity|].
  fold (normalized_for t user_input). rewrite low_map_lookup_for.
  destruct (last_ignoring_case_for _ _ _); [reflexivity|].
  destruct (bool_decide _); [reflexivity|].
  unfold candidates_for, settle_for. cbv zeta.
  destruct (get_close_matches _ _ _ _); [|reflexivity].
  destruct (List.filter _ _); reflexivity.
Qed.

(** The first layer: the last entry equal to the input ignoring case is
    returned at once, whatever the mode, and the terminal is not
    touched. *)
Lemma validate_input_for_exact
    (user_input : string) (valid_list : list string) (mode : Z) (label : string)
    (w : console) (c : string) :
  last_ignoring_case_for t valid_list (text_lower t (normalized_for t user_input))
    = Some c ->
  validate_input_for t get_close_matches user_input valid_list mode label w
    = (Ok c, w).
Proof.
  intros Hlast. rewrite validate_input_for_layers.
  destruct (String.eqb_spec user_input EmptyString) as [->|Hne].
  - apply last_filter_some in Hlast as [_ Heq].
    apply String.eqb_eq in Heq. rewrite normalized_for_empty in Heq.
    apply (lower_only_empty t laws) in Heq as ->. reflexivity.
  - rewrite Hlast. reflexivity.
Qed.

(** Past the two exact layers: the candidates decide. *)
Lemma validate_input_for_settles
    (user_input : string) (valid_list : list string) (mode : Z) (label : string)
    (w : console) :
  user_input <> EmptyString ->
  (forall v, v ∈ valid_list ->
     text_lower t v <> text_lower t (normalized_for t user_input)) ->
  title_case_showdown_for t (normalized_for t user_input) ∉ valid_list ->
  validate_input_for t get_close_matches user_input valid_list mode label w
  = settle_for t
      (candidates_for t get_close_matches (normalized_for t user_input) valid_list)
      (text_strip t user_input) mode label w.
Proof.
  intros Hne Hlow Htitle. rewrite validate_input_for_layers.
  destruct (String.eqb_spec user_input EmptyString) as [Heq|_]; [contradiction|].
  assert (last_ignoring_case_for t valid_list
            (text_lower t (normalized_for t user_input)) = None) as ->.
  { apply last_filter_none. intros x Hx. apply String.eqb_neq, Hlow, Hx. }
  rewrite bool_decide_eq_false_2 by exact Htitle. reflexivity.
Qed.

End AnyText.

(** ** Title case *)

Lemma to_lower_idempotent (c : ascii) :
  Str.to_lower (Str.to_lower c) = Str.to_lower c.
Proof. destruct c as [[] [] [] [] [] [] [] []]; reflexivity. Qed.

(** ** Resolution *)

(** C6, as the code has it.  [str.lower], [str.strip] and [str.title] are
    any functions with the two laws of [text_laws].  When the normalized
    input equals an entry [c] of the list ignoring case, [validate_input]
    returns, in every mode and without touching the terminal, the last
    entry of the list that equals [c] ignoring case.  That entry is [c]
    itself when no other entry differs from [c] by case alone. *)
Theorem resolution_identity :
  forall t get_close_matches user_input valid_list mode label w c,
    text_laws t ->
    c ∈ valid_list ->
    text_lower t (normalized_for t user_input) = text_lower t c ->
    exists c',
      last_ignoring_case_for t valid_list (text_lower t c) = Some c' /\
      c' ∈ valid_list /\
      text_lower t c' = text_lower t c /\
      validate_input_for t get_close_matches user_input valid_list mode label w
        = (Ok c', w) /\
      ((forall x, x ∈ valid_list -> text_lower t x = text_lower t c -> x = c) ->
       c' = c).
Proof.
  intros t gcm user_input valid_list mode label w c laws Hc Hlow.
  destruct (last_ignoring_case_for t valid_list (text_lower t c)) as [c'|] eqn:Hlast.
  - pose proof Hlast as Hlast'.
    apply last_filter_some in Hlast' as [Hin Heq]. apply String.eqb_eq in Heq.
    exists c'. repeat split; [exact Hin|exact Heq| |].
    + apply validate_input_for_exact; [exact laws|]. rewrite Hlow. exact Hlast.
    + intros Hunique. apply Hunique; assumption.
  - exfalso. pose proof (proj1 (last_filter_none _ _) Hlast c Hc) as Hno.
    cbn in Hno. rewrite String.eqb_refl in Hno. discriminate Hno.
Qed.

Lemma resolution_identity_witness :
  exists c',
    last_ignoring_case_for ascii_text ["Hasty"; "Jolly"]%string
      (text_lower ascii_text "Jolly") = Some c' /\
    c' ∈ ["Hasty"; "Jolly"]%string /\
    text_lower ascii_text c' = text_lower ascii_text "Jolly" /\
    validate_input_for ascii_text no_close_matches " jolly_ "
      ["Hasty"; "Jolly"]%string mode_silent "Nature" (Console [] [])
      = (Ok c', Console [] []) /\
    ((forall x, x ∈ ["Hasty"; "Jolly"]%string ->
        text_lower ascii_text x = text_lower ascii_text "Jolly" ->
        x = "Jolly"%string) ->
     c' = "Jolly"%string).
Proof.
  refine (resolution_identity ascii_text no_close_matches " jolly_ "
            ["Hasty"; "Jolly"]%string mode_silent "Nature" (Console [] [])
            "Jolly" ascii_text_laws _ _).
  - right. left.
  - vm_compute. reflexivity.
Defined.

(** Where C6 stops holding: two entries that differ by case alone.  The
    input is the first of them, letter for letter, and the second comes
    back, in each of the three modes. *)
Lemma resolution_returns_last_duplicate :
  validate_input no_close_matches "Jolly" ["Jolly"; "JOLLY"]%string
    mode_prompt "Entry" (Console [] []) = (Ok "JOLLY"%string, Console [] []) /\
  validate_input no_close_matches "Jolly" ["Jolly"; "JOLLY"]%string
    mode_silent "Entry" (Console [] []) = (Ok "JOLLY"%string, Console [] []) /\
  validate_input no_close_matches "Jolly" ["Jolly"; "JOLLY"]%string
    mode_off "Entry" (Console [] []) = (Ok "JOLLY"%string, Console [] []).
Proof. repeat split; vm_compute; reflexivity. Qed.

(** C5, as the code has it.  [str.lower], [str.strip] and [str.title] are
    any functions with the two laws of [text_laws].  In off mode, when no
    entry equals the normalized input ignoring case and its title-cased
    form is not an entry either, [validate_input] returns the trimmed
    input and leaves the terminal alone, whatever the fuzzy matcher and
    the substring search propose. *)
Theorem off_policy_passive :
  forall t get_close_matches user_input valid_list label w,
    text_laws t ->
    (forall v, v ∈ valid_list ->
       text_lower t v <> text_lower t (normalized_for t user_input)) ->
    title_case_showdown_for t (normalized_for t user_input) ∉ valid_list ->
    validate_input_for t get_close_matches user_input valid_list mode_off label w
      = (Ok (text_strip t user_input), w).
Proof.
  intros t gcm user_input valid_list label w laws Hlow Htitle.
  destruct (String.eqb_spec user_input EmptyString) as [->|Hne].
  - rewrite (strip_of_empty t laws). reflexivity.
  - rewrite validate_input_for_settles by assumption.
    destruct (candidates_for t gcm (normalized_for t user_input) valid_list);
      reflexivity.
Qed.

Lemma off_policy_passive_witness :
  validate_input_for ascii_text (fun _ _ _ _ => ["Jolly"%string]) " jolli "
    ["Jolly"; "Hasty"]%string mode_off "Nature" (Console [] [])
  = (Ok (text_strip ascii_text " jolli "), Console [] []).
Proof.
  refine (off_policy_passive ascii_text (fun _ _ _ _ => ["Jolly"%string]) " jolli "
            ["Jolly"; "Hasty"]%string "Nature" (Console [] []) ascii_text_laws _ _).
  - intros v Hv.
    apply elem_of_cons in Hv as [->|Hv]; [vm_compute; discriminate|].
    apply elem_of_cons in Hv as [->|Hv]; [vm_compute; discriminate|].
    apply elem_of_nil in Hv. destruct Hv.
  - intros Hin.
    apply elem_of_cons in Hin as [Heq|Hin]; [vm_compute in Heq; discriminate Heq|].
    apply elem_of_cons in Hin as [Heq|Hin]; [vm_compute in Heq; discriminate Heq|].
    apply elem_of_nil in Hin. exact Hin.
Defined.

(** Where C5 stops holding: off mode, and the input differs from an entry
    by case alone.  The entry comes back, not the trimmed input. *)
Lemma off_policy_substitutes :
  validate_input no_close_matches "jolly" ["Jolly"]%string mode_off "Entry"
    (Console [] []) = (Ok "Jolly"%string, Console [] []) /\
  Str.strip "jolly" = "jolly"%string.
Proof. split; vm_compute; reflexivity. Qed.

(** * Further properties *)

(** ** Validation, layer by layer *)

Lemma reverse_involutive (s : string) : Str.reverse (Str.reverse s) = s.
Proof.
  unfold Str.reverse.
  rewrite list_ascii_of_string_of_list_ascii, rev_involutive.
  apply string_of_list_ascii_of_string.
Qed.

Lemma lstrip_idempotent (s : string) : Str.lstrip (Str.lstrip s) = Str.lstrip s.
Proof.
  induction s as [|c s IH]; [reflexivity|]. cbn.
  destruct (Str.is_space c) eqn:Hc; [exact IH|]. cbn. rewrite Hc. reflexivity.
Qed.

(** What [lstrip] leaves is empty or starts with a character that is not
    a space. *)
Lemma lstrip_head (s : string) :
  Str.lstrip s = EmptyString \/
  exists c t, Str.lstrip s = String c t /\ Str.is_space c = false.
Proof.
  induction s as [|c s IH]; [left; reflexivity|]. cbn.
  destruct (Str.is_space c) eqn:Hc; [exact IH|]. right. eauto.
Qed.

Lemma lstrip_keeps_last (l : list ascii) (c : ascii) :
  Str.is_space c = false ->
  exists l', Str.lstrip (string_of_list_ascii (l ++ [c]))
             = string_of_list_ascii (l' ++ [c]).
Proof.
  intros Hc. induction l as [|x l IH]; cbn.
  - rewrite Hc. exists []. reflexivity.
  - destruct (Str.is_space x); [exact IH|]. exists (x :: l). reflexivity.
Qed.

Lemma rstrip_keeps_head (c : ascii) (t : string) :
  Str.is_space c = false -> exists t', Str.rstrip (String c t) = String c t'.
Proof.
  intros Hc. unfold Str.rstrip, Str.reverse at 2. cbn [list_ascii_of_string rev].
  destruct (lstrip_keeps_last (rev (list_ascii_of_string t)) c Hc) as [l' ->].
  unfold Str.reverse. rewrite list_ascii_of_string_of_list_ascii, rev_app_distr.
  cbn. eauto.
Qed.

Lemma rstrip_idempotent (s : string) : Str.rstrip (Str.rstrip s) = Str.rstrip s.
Proof.
  unfold Str.rstrip. rewrite reverse_involutive, lstrip_idempotent. reflexivity.
Qed.

Lemma lstrip_rstrip_lstrip (s : string) :
  Str.lstrip (Str.rstrip (Str.lstrip s)) = Str.rstrip (Str.lstrip s).
Proof.
  destruct (lstrip_head s) as [->|(c & t & -> & Hc)]; [reflexivity|].
  destruct (rstrip_keeps_head c t Hc) as [t' ->]. cbn. rewrite Hc. reflexivity.
Qed.

Lemma strip_idempotent (s : string) : Str.strip (Str.strip s) = Str.strip s.
Proof.
  unfold Str.strip. rewrite lstrip_rstrip_lstrip. apply rstrip_idempotent.
Qed.

(** Characters of a trimmed string are characters of the string. *)
Lemma lstrip_chars (s : string) (c : ascii) :
  c ∈ list_ascii_of_string (Str.lstrip s) -> c ∈ list_ascii_of_string s.
Proof.
  induction s as [|x s IH]; cbn; [tauto|].
  destruct (Str.is_space x); [|tauto]. intros Hc. right. apply IH, Hc.
Qed.

Lemma reverse_chars (s : string) (c : ascii) :
  c ∈ list_ascii_of_string (Str.reverse s) <-> c ∈ list_ascii_of_string s.
Proof.
  unfold Str.reverse. rewrite list_ascii_of_string_of_list_ascii.
  rewrite !list_elem_of_In. symmetry. apply in_rev.
Qed.

Lemma strip_chars (s : string) (c : ascii) :
  c ∈ list_ascii_of_string (Str.strip s) -> c ∈ list_ascii_of_string s.
Proof.
  unfold Str.strip, Str.rstrip. rewrite reverse_chars. intros Hc.
  apply lstrip_chars in Hc. apply (proj1 (reverse_chars _ _)) in Hc.
  apply lstrip_chars, Hc.
Qed.

Lemma replace_removes (old new : ascii) (s : string) :
  new <> old -> old ∉ list_ascii_of_string (Str.replace old new s).
Proof.
  intros Hne. induction s as [|c s IH]; cbn; [apply not_elem_of_nil|].
  intros Hin. apply elem_of_cons in Hin as [Heq|Hin]; [|exact (IH Hin)].
  destruct (Ascii.eqb_spec c old); congruence.
Qed.

Lemma replace_absent (old new : ascii) (s : string) :
  old ∉ list_ascii_of_string s -> Str.replace old new s = s.
Proof.
  induction s as [|c s IH]; cbn; [reflexivity|]. intros Hnot.
  destruct (Ascii.eqb_spec c old) as [->|_]; [destruct Hnot; left|].
  rewrite IH; [reflexivity|]. intros Hin. apply Hnot. right. exact Hin.
Qed.

(** The normalized input is a fixed point of the normalization. *)
Lemma normalized_fixed (raw : string) :
  Str.replace "_" " " (Str.strip (normalized raw)) = normalized raw.
Proof.
  unfold normalized. rewrite strip_idempotent. apply replace_absent.
  intros Hin. apply strip_chars in Hin. revert Hin.
  apply replace_removes. discriminate.
Qed.

Lemma to_lower_to_upper (c : ascii) :
  Str.to_lower (Str.to_upper c) = Str.to_lower c.
Proof. destruct c as [[] [] [] [] [] [] [] []]; reflexivity. Qed.

Lemma lower_title_from (b : bool) (s : string) :
  Str.lower (Str.title_from b s) = Str.lower s.
Proof.
  revert b. induction s as [|c s IH]; intros b; [reflexivity|].
  cbn [Str.title_from].
  destruct (Str.is_upper c || Str.is_lower c); cbn [Str.lower]; rewrite IH;
    [|reflexivity].
  destruct b; [rewrite to_lower_idempotent|rewrite to_lower_to_upper]; reflexivity.
Qed.

Lemma lower_idempotent (s : string) : Str.lower (Str.lower s) = Str.lower s.
Proof.
  induction s as [|c s IH]; [reflexivity|]. cbn.
  rewrite to_lower_idempotent, IH. reflexivity.
Qed.

Section Layers.

Context (get_close_matches : string -> list string -> nat -> float -> list string).

(** [validate_input], layer by layer. *)
Lemma validate_input_layers
    (user_input : string) (valid_list : list string) (mode : Z) (label : string)
    (w : console) :
  validate_input get_close_matches user_input valid_list mode label w =
  if String.eqb user_input EmptyString then (Ok user_input, w)
  else match last_ignoring_case valid_list (Str.lower (normalized user_input)) with
       | Some v => (Ok v, w)
       | None =>
           if bool_decide (title_case_showdown (normalized user_input) ∈ valid_list)
           then (Ok (title_case_showdown (normalized user_input)), w)
           else settle (candidates get_close_matches (normalized user_input) valid_list)
                       (Str.strip user_input) mode label w
       end.
Proof.
  unfold validate_input. destruct (String.eqb user_input EmptyString); [reflexivity|].
  fold (normalized user_input). rewrite low_map_lookup.
  destruct (last_ignoring_case _ _); [reflexivity|].
  destruct (bool_decide _); [reflexivity|].
  unfold candidates, settle. cbv zeta.
  destruct (get_close_matches _ _ _ _); [|reflexivity].
  destruct (List.filter _ _); reflexivity.
Qed.


End Layers.






(** X3.  In silent mode nothing is read from the terminal and nothing is
    raised; at most one line is printed. *)
Theorem silent_mode_never_asks :
  forall get_close_matches user_input valid_list label w,
    exists r,
      validate_input get_close_matches user_input valid_list mode_silent label w
        = (Ok r, w) \/
      exists line,
        validate_input get_close_matches user_input valid_list mode_silent label w
          = (Ok r, Console (stdin w) (stdout w ++ [line])).
Proof.
  intros gcm user_input valid_list label w.
  rewrite validate_input_layers.
  destruct (String.eqb user_input EmptyString); [eexists; left; reflexivity|].
  destruct (last_ignoring_case _ _); [eexists; left; reflexivity|].
  destruct (bool_decide _); [eexists; left; reflexivity|].
  destruct (candidates gcm (normalized user_input) valid_list) as [|suggestion others].
  - eexists. left. reflexivity.
  - exists suggestion. right. eexists. reflexivity.
Qed.

(** When the title-cased input is an entry, the lookup ignoring case
    has found an entry already. *)
Lemma title_cased_entry_found :
  forall get_close_matches user_input valid_list mode label w,
    title_case_showdown (normalized user_input) ∈ valid_list ->
    exists c,
      last_ignoring_case valid_list (Str.lower (normalized user_input)) = Some c /\
      c ∈ valid_list /\
      Str.lower c = Str.lower (title_case_showdown (normalized user_input)) /\
      validate_input get_close_matches user_input valid_list mode label w
        = (Ok c, w).
Proof.
  intros gcm user_input valid_list mode label w Hin.
  assert (Hlow : Str.lower (title_case_showdown (normalized user_input))
                 = Str.lower (normalized user_input)).
  { unfold title_case_showdown. rewrite normalized_fixed.
    apply lower_title_from. }
  destruct (last_ignoring_case valid_list (Str.lower (normalized user_input)))
    as [c|] eqn:Hlast.
  - exists c. pose proof Hlast as Hlast'.
    apply last_filter_some in Hlast' as [Hc Heq]. apply String.eqb_eq in Heq.
    repeat split; [exact Hc|congruence|].
    apply validate_input_exact, Hlast.
  - exfalso. pose proof (proj1 (last_filter_none _ _) Hlast _ Hin) as Hno.
    cbn in Hno. rewrite Hlow, String.eqb_refl in Hno. discriminate Hno.
Qed.

(** X4.  The exact title-case test of lines 246-248 never decides.  When the
    title-cased input is an entry, the case-insensitive lookup before it
    has already returned an entry equal to the input ignoring case. *)
Theorem title_layer_never_decides :
  forall get_close_matches user_input valid_list mode label w,
    title_case_showdown (normalized user_input) ∈ valid_list ->
    exists c,
      last_ignoring_case valid_list (Str.lower (normalized user_input)) = Some c /\
      c ∈ valid_list /\
      Str.lower c = Str.lower (title_case_showdown (normalized user_input)) /\
      validate_input get_close_matches user_input valid_list mode label w
        = (Ok c, w).
Proof.
  intros get_close_matches user_input valid_list mode label w Hin.
  apply title_cased_entry_found, Hin.
Qed.

Lemma title_layer_never_decides_witness :
  exists c,
    last_ignoring_case ["Hasty"; "Jolly"]%string (Str.lower (normalized "jolly"))
      = Some c /\
    c ∈ ["Hasty"; "Jolly"]%string /\
    Str.lower c = Str.lower (title_case_showdown (normalized "jolly")) /\
    validate_input no_close_matches "jolly" ["Hasty"; "Jolly"]%string mode_prompt
      "Nature" (Console [] []) = (Ok c, Console [] []).
Proof.
  refine (title_layer_never_decides no_close_matches "jolly"
            ["Hasty"; "Jolly"]%string mode_prompt "Nature" (Console [] []) _).
  vm_compute. right. left.
Defined.

Lemma offer_alternatives_for_declined
    (t : text) (alternatives : list string) (u : string) :
  forall w,
    (length alternatives <= length (stdin w))%nat ->
    Forall (declines_for t) (take (length alternatives) (stdin w)) ->
    exists w',
      offer_alternatives_for t alternatives u w = (Ok u, w') /\
      stdin w' = drop (length alternatives) (stdin w).
Proof.
  induction alternatives as [|s rest IH]; intros w Hlen Hdecl; cbn.
  - exists w. split; reflexivity.
  - unfold mbind, io_bind, input.
    destruct (stdin w) as [|line pending] eqn:Hstdin; [cbn in Hlen; lia|].
    cbn in Hlen, Hdecl. apply Forall_cons in Hdecl as [Hline Hpending].
    unfold declines_for in Hline. rewrite Hline. cbn [tail].
    apply IH; cbn; [lia|exact Hpending].
Qed.

Lemma settle_for_declined
    (t : text) (close : list string) (u : string) (label : string) :
  forall w,
    (length close <= length (stdin w))%nat ->
    Forall (declines_for t) (take (length close) (stdin w)) ->
    exists w',
      settle_for t close u mode_prompt label w = (Ok u, w') /\
      stdin w' = drop (length close) (stdin w).
Proof.
  intros w Hlen Hdecl. destruct close as [|suggestion others]; cbn.
  - exists w. split; reflexivity.
  - unfold mbind, io_bind, input.
    destruct (stdin w) as [|line pending] eqn:Hstdin; [cbn in Hlen; lia|].
    cbn in Hlen, Hdecl. apply Forall_cons in Hdecl as [Hline Hpending].
    unfold declines_for in Hline. rewrite Hline. cbn [tail].
    apply offer_alternatives_for_declined; cbn; [lia|exact Hpending].
Qed.

(** X5.  [str.lower], [str.strip] and [str.title] are any functions.  In
    prompt mode, for an input that is not empty, when no entry equals the
    normalized input ignoring case, its title-cased form is not an entry
    either, and the user declines each candidate in turn, the trimmed
    input comes back: one line is read for each candidate, and no
    other. *)
Theorem prompt_mode_all_declined :
  forall t get_close_matches user_input valid_list label w,
    user_input <> EmptyString ->
    (forall v, v ∈ valid_list ->
       text_lower t v <> text_lower t (normalized_for t user_input)) ->
    title_case_showdown_for t (normalized_for t user_input) ∉ valid_list ->
    (length (candidates_for t get_close_matches (normalized_for t user_input)
               valid_list) <= length (stdin w))%nat ->
    Forall (declines_for t)
      (take (length (candidates_for t get_close_matches
                       (normalized_for t user_input) valid_list))
            (stdin w)) ->
    exists w',
      validate_input_for t get_close_matches user_input valid_list mode_prompt
        label w = (Ok (text_strip t user_input), w') /\
      stdin w'
      = drop (length (candidates_for t get_close_matches
                        (normalized_for t user_input) valid_list))
             (stdin w).
Proof.
  intros t gcm user_input valid_list label w Hne Hlow Htitle Hlen Hdecl.
  rewrite validate_input_for_settles by assumption.
  apply settle_for_declined; assumption.
Qed.

Lemma prompt_mode_all_declined_witness :
  exists w',
    validate_input_for ascii_text no_close_matches " jol "
      ["Jolly"; "Jolteon"]%string mode_prompt "Species"
      (Console ["n"; " No"; "yes"]%string [])
    = (Ok (text_strip ascii_text " jol "), w') /\
    stdin w'
    = drop (length (candidates_for ascii_text no_close_matches
                      (normalized_for ascii_text " jol ")
                      ["Jolly"; "Jolteon"]%string))
           (stdin (Console ["n"; " No"; "yes"]%string [])).
Proof.
  refine (prompt_mode_all_declined ascii_text no_close_matches " jol "
            ["Jolly"; "Jolteon"]%string "Species"
            (Console ["n"; " No"; "yes"]%string []) _ _ _ _ _).
  - discriminate.
  - intros v Hv.
    apply elem_of_cons in Hv as [->|Hv]; [vm_compute; discriminate|].
    apply elem_of_cons in Hv as [->|Hv]; [vm_compute; discriminate|].
    apply elem_of_nil in Hv. destruct Hv.
  - intros Hin.
    apply elem_of_cons in Hin as [Heq|Hin]; [vm_compute in Heq; discriminate Heq|].
    apply elem_of_cons in Hin as [Heq|Hin]; [vm_compute in Heq; discriminate Heq|].
    apply elem_of_nil in Hin. exact Hin.
  - vm_compute. lia.
  - vm_compute. repeat constructor.
Defined.

Lemma to_lower_underscore (c : ascii) : Str.to_lower c = "_"%char -> c = "_"%char.
Proof. destruct c as [[] [] [] [] [] [] [] []]; vm_compute; congruence. Qed.

Lemma to_upper_underscore (c : ascii) : Str.to_upper c = "_"%char -> c = "_"%char.
Proof. destruct c as [[] [] [] [] [] [] [] []]; vm_compute; congruence. Qed.

Lemma title_from_underscore (b : bool) (s : string) :
  "_"%char ∈ list_ascii_of_string (Str.title_from b s) ->
  "_"%char ∈ list_ascii_of_string s.
Proof.
  revert b. induction s as [|c s IH]; intros b; cbn; [tauto|].
  destruct (Str.is_upper c || Str.is_lower c); cbn; intros Hin;
    apply elem_of_cons in Hin as [Heq|Hin]; apply elem_of_cons.
  - left. symmetry. destruct b;
      [apply to_lower_underscore|apply to_upper_underscore]; congruence.
  - right. eapply IH, Hin.
  - left. exact Heq.
  - right. eapply IH, Hin.
Qed.

(** X26.  [title_case_showdown] leaves no underscore, and changes nothing
    but the case of what trimming and replacing the underscores give. *)
Theorem title_case_showdown_shape :
  forall s,
    ("_"%char ∉ list_ascii_of_string (title_case_showdown s)) /\
    Str.lower (title_case_showdown s)
    = Str.lower (Str.replace "_" " " (Str.strip s)).
Proof.
  intros s. unfold title_case_showdown, Str.title. split.
  - intros Hin. apply title_from_underscore in Hin. revert Hin.
    apply replace_removes. discriminate.
  - apply lower_title_from.
Qed.

(** ** The nature table *)

Lemma nature_effects_well_formed : map_Forall well_formed_effect NATURE_EFFECTS.
Proof. apply (bool_decide_unpack _). vm_compute. exact I. Qed.

(** X6.  A nature of the table raises one stat and lowers another, neither
    of them HP: the multiplier is 1.1 for the first, 0.9 for the second
    and 1.0 for every other stat key. *)
Theorem nature_profile :
  forall n inc dec,
    NATURE_EFFECTS !! n = Some (inc, dec) ->
    inc ∈ battle_keys /\ dec ∈ battle_keys /\ inc <> dec /\
    get_nature_multiplier (Some n) inc = 1.1%float /\
    get_nature_multiplier (Some n) dec = 0.9%float /\
    forall stat_key,
      stat_key <> inc -> stat_key <> dec ->
      get_nature_multiplier (Some n) stat_key = 1%float.
Proof.
  intros n inc dec Hn.
  destruct (nature_effects_well_formed n _ Hn) as (Hne & Hinc & Hdec & Hdiff).
  cbn in Hinc, Hdec, Hdiff. repeat split; try assumption.
  - destruct n; [congruence|]. unfold get_nature_multiplier.
    rewrite Hn, String.eqb_refl. reflexivity.
  - destruct n; [congruence|]. unfold get_nature_multiplier. rewrite Hn.
    destruct (String.eqb_spec dec inc); [congruence|].
    rewrite String.eqb_refl. reflexivity.
  - intros stat_key Hi Hd. destruct n; [congruence|].
    unfold get_nature_multiplier. rewrite Hn.
    destruct (String.eqb_spec stat_key inc); [congruence|].
    destruct (String.eqb_spec stat_key dec); [congruence|]. reflexivity.
Qed.

Lemma nature_profile_witness :
  "spe"%string ∈ battle_keys /\ "spa"%string ∈ battle_keys /\
  "spe"%string <> "spa"%string /\
  get_nature_multiplier (Some "Jolly"%string) "spe" = 1.1%float /\
  get_nature_multiplier (Some "Jolly"%string) "spa" = 0.9%float /\
  forall stat_key,
    stat_key <> "spe"%string -> stat_key <> "spa"%string ->
    get_nature_multiplier (Some "Jolly"%string) stat_key = 1%float.
Proof.
  refine (nature_profile "Jolly" "spe" "spa" _). vm_compute. reflexivity.
Defined.

(** X7.  No nature, listed or not, touches HP. *)
Theorem hp_never_affected :
  forall nature, get_nature_multiplier nature "hp" = 1%float.
Proof.
  intros [n|]; [|reflexivity]. destruct n as [|c n]; [reflexivity|].
  unfold get_nature_multiplier.
  destruct (NATURE_EFFECTS !! String c n) as [[inc dec]|] eqn:Hn; [|reflexivity].
  destruct (nature_effects_well_formed _ _ Hn) as (_ & Hinc & Hdec & _).
  cbn in Hinc, Hdec.
  destruct (String.eqb_spec "hp" inc) as [<-|_].
  { exfalso. revert Hinc. apply (bool_decide_unpack _). vm_compute. exact I. }
  destruct (String.eqb_spec "hp" dec) as [<-|_]; [|reflexivity].
  exfalso. revert Hdec. apply (bool_decide_unpack _). vm_compute. exact I.
Qed.

(** Whatever is looked up, the multiplier is one of the three. *)
Lemma multiplier_is_one_of_three :
  forall nature stat_key,
    exists q, nature_multiplier (get_nature_multiplier nature stat_key) q.
Proof.
  intros [n|] stat_key; [|eexists; apply multiplier_neutral].
  destruct n as [|c n]; [eexists; apply multiplier_neutral|].
  unfold get_nature_multiplier.
  destruct (NATURE_EFFECTS !! String c n) as [[inc dec]|];
    [|eexists; apply multiplier_neutral].
  destruct (String.eqb stat_key inc); [eexists; apply multiplier_boosted|].
  destruct (String.eqb stat_key dec); eexists;
    [apply multiplier_reduced|apply multiplier_neutral].
Qed.

Lemma nature_effects_distinct :
  NoDup (map_to_list NATURE_EFFECTS).*2.
Proof. apply (bool_decide_unpack _). vm_compute. exact I. Qed.

Lemma NoDup_snd_inj {A B} (l : list (A * B)) (a a' : A) (b : B) :
  NoDup l.*2 -> (a, b) ∈ l -> (a', b) ∈ l -> a = a'.
Proof.
  induction l as [|[x y] l IH]; cbn; intros Hnd Ha Ha'.
  - destruct (not_elem_of_nil _ Ha).
  - apply NoDup_cons in Hnd as [Hy Hnd].
    apply elem_of_cons in Ha as [Ha|Ha]; apply elem_of_cons in Ha' as [Ha'|Ha'].
    + congruence.
    + destruct Hy. replace y with b by congruence.
      exact (list_elem_of_fmap_2 snd _ _ Ha').
    + destruct Hy. replace y with b by congruence.
      exact (list_elem_of_fmap_2 snd _ _ Ha).
    + apply IH; assumption.
Qed.

(** X8.  The table holds each way of raising one stat other than HP and
    lowering another exactly once. *)
Theorem nature_for_each_pair :
  forall inc dec,
    inc ∈ battle_keys -> dec ∈ battle_keys -> inc <> dec ->
    exists n,
      NATURE_EFFECTS !! n = Some (inc, dec) /\
      forall n', NATURE_EFFECTS !! n' = Some (inc, dec) -> n' = n.
Proof.
  intros inc dec Hinc Hdec Hdiff.
  assert (Hex : exists n, NATURE_EFFECTS !! n = Some (inc, dec)).
  { unfold battle_keys in *.
    repeat (apply elem_of_cons in Hinc as [->|Hinc]);
      try (destruct (not_elem_of_nil _ Hinc));
      repeat (apply elem_of_cons in Hdec as [->|Hdec]);
      try (destruct (not_elem_of_nil _ Hdec));
      try congruence.
    all: match goal with
         | |- exists n, _ !! n = Some (?i, ?d) =>
             let l := eval vm_compute in
               (List.find (fun kv => bool_decide (kv.2 = (i, d)))
                          (map_to_list NATURE_EFFECTS)) in
             match l with
             | Some (?n, _) => exists n; vm_compute; reflexivity
             end
         end. }
  destruct Hex as [n Hn]. exists n. split; [exact Hn|].
  intros n' Hn'.
  apply (NoDup_snd_inj (map_to_list NATURE_EFFECTS) n' n (inc, dec));
    [exact nature_effects_distinct| |]; apply elem_of_map_to_list; assumption.
Qed.

Lemma nature_for_each_pair_witness :
  exists n,
    NATURE_EFFECTS !! n = Some ("spe", "spa")%string /\
    forall n', NATURE_EFFECTS !! n' = Some ("spe", "spa")%string -> n' = n.
Proof.
  refine (nature_for_each_pair "spe" "spa" _ _ _).
  - apply (bool_decide_unpack _). vm_compute. exact I.
  - apply (bool_decide_unpack _). vm_compute. exact I.
  - discriminate.
Defined.

(** X9.  Every name of the table is a name of [FALLBACK_NATURES], and a
    name of [FALLBACK_NATURES] is in the table or is one of five names
    that are neutral for every stat. *)
Theorem fallback_natures_covered :
  (forall n inc dec,
     NATURE_EFFECTS !! n = Some (inc, dec) -> n ∈ FALLBACK_NATURES) /\
  (forall n,
     n ∈ FALLBACK_NATURES ->
     (exists inc dec, NATURE_EFFECTS !! n = Some (inc, dec)) \/
     (n ∈ ["Hardy"; "Docile"; "Serious"; "Quirky"; "Bashful"]%string /\
      forall stat_key, get_nature_multiplier (Some n) stat_key = 1%float)).
Proof.
  split.
  - assert (H : map_Forall (fun n (_ : string * string) => n ∈ FALLBACK_NATURES)
                  NATURE_EFFECTS)
      by (apply (bool_decide_unpack _); vm_compute; exact I).
    intros n inc dec Hn. exact (H n _ Hn).
  - intros n Hn. unfold FALLBACK_NATURES in Hn.
    repeat (apply elem_of_cons in Hn as [->|Hn]);
      try (destruct (not_elem_of_nil _ Hn));
      first [ left; eexists _, _; vm_compute; reflexivity
            | right; split;
              [apply (bool_decide_unpack _); vm_compute; exact I
              |intros stat_key; reflexivity] ].
Qed.

Lemma fallback_natures_covered_witness :
  (exists inc dec, NATURE_EFFECTS !! "Quirky"%string = Some (inc, dec)) \/
  ("Quirky"%string ∈ ["Hardy"; "Docile"; "Serious"; "Quirky"; "Bashful"]%string /\
   forall stat_key, get_nature_multiplier (Some "Quirky"%string) stat_key = 1%float).
Proof.
  refine (proj2 fallback_natures_covered "Quirky" _).
  apply (bool_decide_unpack _). vm_compute. exact I.
Defined.

(** ** Questions and ribbon categories *)

Example categorize_examples :
  categorize_ribbon "Rainy Mark" = "Marks (Weather / Size)"%string /\
  categorize_ribbon "Alert Ribbon" = "Uncategorized Ribbons"%string /\
  categorize_ribbon "World Champion Ribbon" = "Champion Ribbons"%string.
Proof. repeat split; vm_compute; reflexivity. Qed.

Lemma keyword_in_same_lower (keywords : list string) (a b : string) :
  Str.lower a = Str.lower b -> keyword_in keywords a = keyword_in keywords b.
Proof.
  intros Hlow. induction keywords as [|kw rest IH]; [reflexivity|]. cbn.
  rewrite Hlow, IH. reflexivity.
Qed.

(** X10.  Names that differ by case alone get the same category. *)
Theorem categorize_ignores_case :
  forall a b, Str.lower a = Str.lower b -> categorize_ribbon a = categorize_ribbon b.
Proof.
  intros a b Hlow. unfold categorize_ribbon.
  induction CATEGORIES as [|[category keywords] rest IH]; [reflexivity|]. cbn.
  rewrite (keyword_in_same_lower keywords a b Hlow), IH. reflexivity.
Qed.

Lemma categorize_ignores_case_witness :
  categorize_ribbon "RAINY MARK" = categorize_ribbon "Rainy Mark".
Proof. refine (categorize_ignores_case "RAINY MARK" "Rainy Mark" _). reflexivity. Defined.

Lemma keyword_in_spec (keywords : list string) (name : string) :
  keyword_in keywords name = true <->
  exists kw, kw ∈ keywords /\ Str.contains (Str.lower kw) (Str.lower name) = true.
Proof.
  induction keywords as [|kw rest IH]; cbn.
  - split; [discriminate|]. intros (kw & Hkw & _). destruct (not_elem_of_nil _ Hkw).
  - destruct (Str.contains (Str.lower kw) (Str.lower name)) eqn:Hc.
    + split; [|reflexivity]. intros _. exists kw. split; [left|exact Hc].
    + rewrite IH. split.
      * intros (k & Hk & Hin). exists k. split; [right; exact Hk|exact Hin].
      * intros (k & Hk & Hin). apply elem_of_cons in Hk as [->|Hk]; [congruence|].
        exists k. split; assumption.
Qed.

Lemma categorize_ribbon_for_ascii (name : string) :
  categorize_ribbon_for Str.lower name = categorize_ribbon name.
Proof. reflexivity. Qed.

Lemma keyword_in_for_spec
    (lower : string -> string) (keywords : list string) (name : string) :
  keyword_in_for lower keywords name = true <->
  exists kw, kw ∈ keywords /\ Str.contains (lower kw) (lower name) = true.
Proof.
  induction keywords as [|kw rest IH]; cbn.
  - split; [discriminate|]. intros (kw & Hkw & _). destruct (not_elem_of_nil _ Hkw).
  - destruct (Str.contains (lower kw) (lower name)) eqn:Hc.
    + split; [|reflexivity]. intros _. exists kw. split; [left|exact Hc].
    + rewrite IH. split.
      * intros (k & Hk & Hin). exists k. split; [right; exact Hk|exact Hin].
      * intros (k & Hk & Hin). apply elem_of_cons in Hk as [->|Hk]; [congruence|].
        exists k. split; assumption.
Qed.

Lemma categorize_among_for_spec
    (lower : string -> string) (categories : list (string * list string))
    (name : string) :
  (categorize_among_for lower categories name = "Uncategorized Ribbons"%string /\
   forall category keywords,
     (category, keywords) ∈ categories ->
     keyword_in_for lower keywords name = false) \/
  (exists before category keywords after,
     categories = before ++ (category, keywords) :: after /\
     categorize_among_for lower categories name = category /\
     keyword_in_for lower keywords name = true /\
     forall c kws, (c, kws) ∈ before -> keyword_in_for lower kws name = false).
Proof.
  induction categories as [|[category keywords] rest IH]; cbn.
  - left. split; [reflexivity|]. intros c k Hin. destruct (not_elem_of_nil _ Hin).
  - destruct (keyword_in_for lower keywords name) eqn:Hk.
    + right. exists [], category, keywords, rest. repeat split; [exact Hk|].
      intros c k Hin. destruct (not_elem_of_nil _ Hin).
    + destruct IH as [[Hun Hall]|(before & c & k & after & -> & Hres & Hhit & Hmiss)].
      * left. split; [exact Hun|]. intros c k Hin.
        apply elem_of_cons in Hin as [[= -> ->]|Hin]; [exact Hk|eauto].
      * right. exists ((category, keywords) :: before), c, k, after.
        repeat split; [exact Hres|exact Hhit|].
        intros c' k' Hin.
        apply elem_of_cons in Hin as [[= -> ->]|Hin]; [exact Hk|eauto].
Qed.

(** X11.  [str.lower] is any function.  A name goes to the first category,
    in the order of the table, one of whose keywords occurs lower-cased in
    the lower-cased name, and to the uncategorized ones exactly when no
    keyword of the table does. *)
Theorem categorize_first_match :
  forall (lower : string -> string) name,
    (categorize_ribbon_for lower name = "Uncategorized Ribbons"%string /\
     forall category keywords kw,
       (category, keywords) ∈ CATEGORIES -> kw ∈ keywords ->
       Str.contains (lower kw) (lower name) = false) \/
    (exists before category keywords after kw,
       CATEGORIES = before ++ (category, keywords) :: after /\
       categorize_ribbon_for lower name = category /\
       category <> "Uncategorized Ribbons"%string /\
       kw ∈ keywords /\ Str.contains (lower kw) (lower name) = true /\
       forall c kws k, (c, kws) ∈ before -> k ∈ kws ->
         Str.contains (lower k) (lower name) = false).
Proof.
  intros lower name. unfold categorize_ribbon_for.
  assert (Hnone : forall kws, keyword_in_for lower kws name = false ->
            forall k, k ∈ kws -> Str.contains (lower k) (lower name) = false).
  { intros kws Hk k Hin.
    destruct (Str.contains (lower k) (lower name)) eqn:Hc; [|reflexivity].
    rewrite (proj2 (keyword_in_for_spec lower kws name)) in Hk; [discriminate|eauto]. }
  destruct (categorize_among_for_spec lower CATEGORIES name)
    as [[Hun Hall]|(before & c & k & after & Heq & Hres & Hhit & Hmiss)].
  - left. split; [exact Hun|]. intros category keywords kw Hin Hkw.
    eapply Hnone; eauto.
  - right. apply keyword_in_for_spec in Hhit as (kw & Hkw & Hc).
    exists before, c, k, after, kw. repeat split; try assumption.
    + assert (Hin : c ∈ CATEGORIES.*1).
      { rewrite Heq, fmap_app. apply elem_of_app. right. left. }
      intros ->. revert Hin. apply (bool_decide_unpack _). vm_compute. exact I.
    + intros c' kws k' Hin Hk'. eapply Hnone; eauto.
Qed.

(** X12.  A name in which "mark" occurs, case aside, is never left
    uncategorized nor filed under the special ribbons: it lands in one of
    the first five categories. *)
Theorem mark_is_categorized :
  forall name,
    Str.contains "mark" (Str.lower name) = true ->
    categorize_ribbon name ∈ (take 5 CATEGORIES).*1.
Proof.
  intros name Hmark. unfold categorize_ribbon, CATEGORIES.
  cbn [categorize_among take fmap list_fmap fst].
  repeat match goal with
         | |- context [keyword_in ?kws name] =>
             lazymatch kws with
             | context ["Mark"%string] =>
                 replace (keyword_in kws name) with true
                   by (symmetry; apply keyword_in_spec; exists "Mark"%string;
                       split; [left|exact Hmark])
             | _ => destruct (keyword_in kws name)
             end
         end;
    apply (bool_decide_unpack _); vm_compute; exact I.
Qed.

Lemma mark_is_categorized_witness :
  categorize_ribbon "Remarkable Ribbon" ∈ (take 5 CATEGORIES).*1.
Proof. refine (mark_is_categorized "Remarkable Ribbon" _). vm_compute. reflexivity. Defined.





(** ** The formula and the solver on the legal domain *)

Lemma grid_exact (base level : Z) (m : float) (q : Q) (is_hp : bool) (iv ev : Z) :
  0 <= base <= 255 -> 1 <= level <= 100 -> nature_multiplier m q ->
  on_grid 31 iv ev ->
  calc_stat base iv ev level m is_hp = Ok (exact_stat base iv ev level q is_hp).
Proof.
  intros Hb Hl Hm [Hiv Hev]. apply ev_step_bounds in Hev.
  apply calc_stat_exact; [exact Hm|]. apply numerator_in_bound; lia.
Qed.

Lemma grid_returns (base level : Z) (m : float) (q : Q) (is_hp : bool) :
  0 <= base <= 255 -> 1 <= level <= 100 -> nature_multiplier m q ->
  forall iv ev, on_grid 31 iv ev -> returns (calc_stat base iv ev level m is_hp).
Proof. intros Hb Hl Hm iv ev Hgrid. eexists. eapply grid_exact; eassumption. Qed.

(** X13.  On the legal domain the solver always returns, and it answers
    [None] exactly when no pair of the grid reproduces the observed value
    under the exact formula. *)
Theorem solver_none_iff :
  forall observed base level m q is_hp,
    0 <= base <= 255 -> 1 <= level <= 100 -> nature_multiplier m q ->
    exists r,
      reverse_calc_iv_ev_for_stat observed base level m is_hp 31 = Ok r /\
      (r = None <->
       forall iv ev, on_grid 31 iv ev ->
         exact_stat base iv ev level q is_hp <> observed).
Proof.
  intros observed base level m q is_hp Hb Hl Hm.
  destruct (reverse_calc_returns observed base level m is_hp 31
              (grid_returns base level m q is_hp Hb Hl Hm)) as [r Hrun].
  exists r. split; [exact Hrun|]. split.
  - intros -> iv ev Hgrid Hexact.
    apply (reverse_calc_none _ _ _ _ _ _ Hrun iv ev Hgrid).
    rewrite (grid_exact base level m q is_hp iv ev Hb Hl Hm Hgrid), Hexact.
    reflexivity.
  - intros Hnone. destruct r as [[iv ev]|]; [|reflexivity]. exfalso.
    apply reverse_calc_some in Hrun as [[Hgrid Hcalc] _].
    apply (Hnone iv ev Hgrid).
    rewrite (grid_exact base level m q is_hp iv ev Hb Hl Hm Hgrid) in Hcalc.
    congruence.
Qed.

Lemma solver_none_iff_witness :
  exists r,
    reverse_calc_iv_ev_for_stat 999 100 100 1.1 false 31 = Ok r /\
    (r = None <->
     forall iv ev, on_grid 31 iv ev ->
       exact_stat 100 iv ev 100 (11 # 10) false <> 999).
Proof.
  refine (solver_none_iff 999 100 100 1.1%float (11 # 10)%Q false _ _
            multiplier_boosted); lia.
Defined.

(** X14.  With a negative cap the solver scans nothing and answers [None],
    whatever the other arguments. *)
Theorem solver_negative_cap :
  forall observed base level m is_hp max_iv,
    max_iv < 0 ->
    reverse_calc_iv_ev_for_stat observed base level m is_hp max_iv = Ok None.
Proof.
  intros observed base level m is_hp max_iv Hneg.
  unfold reverse_calc_iv_ev_for_stat, Py.range, seqZ.
  rewrite Z2Nat.nonpos by lia. reflexivity.
Qed.

Lemma solver_negative_cap_witness :
  reverse_calc_iv_ev_for_stat 100 (2 ^ 1100) 50 1 false (-1) = Ok None.
Proof. refine (solver_negative_cap 100 (2 ^ 1100) 50 1%float false (-1) _). lia. Defined.

(** The formula reads an EV through [ev // 4] only. *)
Lemma calc_stat_ev_floor (base iv ev level : Z) (m : float) (is_hp : bool) :
  calc_stat base iv (4 * (ev / 4)) level m is_hp = calc_stat base iv ev level m is_hp.
Proof.
  unfold calc_stat. rewrite (Z.mul_comm 4), Z.div_mul by lia. reflexivity.
Qed.

(** X15.  The round trip for EVs off the grid.  For any EV from 0 to 255 the
    solver finds a pair reproducing the stat; its IV is not below the true
    one, and at the same IV its EV is not above the true one. *)
Theorem round_trip_any_ev :
  forall base level m q is_hp iv ev,
    0 <= base <= 255 -> 1 <= level <= 100 -> nature_multiplier m q ->
    0 <= iv <= 31 -> 0 <= ev <= 255 ->
    exists observed iv' ev',
      calc_stat base iv ev level m is_hp = Ok observed /\
      reverse_calc_iv_ev_for_stat observed base level m is_hp 31
        = Ok (Some (iv', ev')) /\
      calc_stat base iv' ev' level m is_hp = Ok observed /\
      iv <= iv' /\ (iv' = iv -> ev' <= ev).
Proof.
  intros base level m q is_hp iv ev Hb Hl Hm Hiv Hev.
  assert (Hgrid : on_grid 31 iv (4 * (ev / 4))).
  { split; [exact Hiv|]. exists (ev / 4). split; [|reflexivity].
    assert (0 <= ev / 4) by (apply Z.div_pos; lia).
    assert (ev / 4 < 64) by (apply Z.div_lt_upper_bound; lia). lia. }
  pose proof (grid_exact base level m q is_hp _ _ Hb Hl Hm Hgrid) as Hobs.
  rewrite calc_stat_ev_floor in Hobs.
  destruct (reverse_calc_returns (exact_stat base iv (4 * (ev / 4)) level q is_hp)
              base level m is_hp 31 (grid_returns base level m q is_hp Hb Hl Hm))
    as [[[iv' ev']|] Hrun].
  - exists (exact_stat base iv (4 * (ev / 4)) level q is_hp), iv', ev'.
    pose proof Hrun as Hsome.
    apply reverse_calc_some in Hsome as [[_ Hcalc] Hbest].
    destruct (Hbest iv (4 * (ev / 4)) Hgrid) as [Hle Htie].
    { rewrite calc_stat_ev_floor. exact Hobs. }
    repeat split; try assumption.
    intros Heq. specialize (Htie (eq_sym Heq)).
    pose proof (Z.mul_div_le ev 4 ltac:(lia)). lia.
  - exfalso. apply (reverse_calc_none _ _ _ _ _ _ Hrun iv _ Hgrid).
    rewrite calc_stat_ev_floor. exact Hobs.
Qed.

Lemma round_trip_any_ev_witness :
  exists observed iv' ev',
    calc_stat 50 20 7 50 0.9 false = Ok observed /\
    reverse_calc_iv_ev_for_stat observed 50 50 0.9 false 31 = Ok (Some (iv', ev')) /\
    calc_stat 50 iv' ev' 50 0.9 false = Ok observed /\
    20 <= iv' /\ (iv' = 20 -> ev' <= 7).
Proof.
  refine (round_trip_any_ev 50 50 0.9%float (9 # 10)%Q false 20 7 _ _
            multiplier_reduced _ _); lia.
Defined.

Lemma multiplier_nonnegative (m : float) (q : Q) :
  nature_multiplier m q -> (0 <= q)%Q.
Proof. intros []; discriminate. Qed.

Lemma exact_stat_monotone
    (base base' iv iv' ev ev' level level' : Z) (q : Q) (is_hp : bool) :
  (0 <= q)%Q ->
  0 <= base <= base' -> 0 <= iv <= iv' -> 0 <= ev <= ev' -> 0 <= level <= level' ->
  exact_stat base iv ev level q is_hp <= exact_stat base' iv' ev' level' q is_hp.
Proof.
  intros Hq Hb Hi He Hl. unfold exact_stat.
  assert (Hdiv : 0 <= ev / 4 <= ev' / 4)
    by (split; [apply Z.div_pos; lia|apply Z.div_le_mono; lia]).
  assert (Hraw : (2 * base + iv + ev / 4) * level / 100
                 <= (2 * base' + iv' + ev' / 4) * level' / 100)
    by (apply Z.div_le_mono; [lia|]; apply Z.mul_le_mono_nonneg; lia).
  destruct is_hp; [lia|].
  apply Qfloor_resp_le, Qmult_le_compat_r; [|exact Hq].
  rewrite <- Zle_Qle. lia.
Qed.

(** X16.  On the legal domain a stat never goes down when the base stat, the
    IV, the EV or the level goes up. *)
Theorem calc_stat_monotone :
  forall base base' iv iv' ev ev' level level' m q is_hp,
    nature_multiplier m q ->
    0 <= base <= base' -> base' <= 255 ->
    0 <= iv <= iv' -> iv' <= 31 ->
    0 <= ev <= ev' -> ev' <= 252 ->
    1 <= level <= level' -> level' <= 100 ->
    exists s s',
      calc_stat base iv ev level m is_hp = Ok s /\
      calc_stat base' iv' ev' level' m is_hp = Ok s' /\
      s <= s'.
Proof.
  intros base base' iv iv' ev ev' level level' m q is_hp Hm Hb Hb' Hi Hi' He He'
    Hl Hl'.
  exists (exact_stat base iv ev level q is_hp),
         (exact_stat base' iv' ev' level' q is_hp).
  split; [|split].
  - apply calc_stat_exact; [exact Hm|]. apply numerator_in_bound; lia.
  - apply calc_stat_exact; [exact Hm|]. apply numerator_in_bound; lia.
  - apply exact_stat_monotone; [eapply multiplier_nonnegative; exact Hm|lia..].
Qed.

Lemma calc_stat_monotone_witness :
  exists s s',
    calc_stat 100 0 0 50 1.1 false = Ok s /\
    calc_stat 100 31 252 50 1.1 false = Ok s' /\
    s <= s'.
Proof.
  refine (calc_stat_monotone 100 100 0 31 0 252 50 50 1.1%float (11 # 10)%Q false
            multiplier_boosted _ _ _ _ _ _ _ _); lia.
Defined.

(** X17.  On the legal domain a stat lies between 4 and 714; an HP stat is
    above the level by 10 at least. *)
Theorem calc_stat_bounds :
  forall base iv ev level m q is_hp,
    nature_multiplier m q ->
    0 <= base <= 255 -> 0 <= iv <= 31 -> 0 <= ev <= 252 -> 1 <= level <= 100 ->
    exists s,
      calc_stat base iv ev level m is_hp = Ok s /\
      4 <= s <= 714 /\ (is_hp = true -> level + 10 <= s).
Proof.
  intros base iv ev level m q is_hp Hm Hb Hi He Hl.
  exists (exact_stat base iv ev level q is_hp). split.
  { apply calc_stat_exact; [exact Hm|]. apply numerator_in_bound; lia. }
  pose proof (multiplier_nonnegative m q Hm) as Hq.
  pose proof (exact_stat_monotone 0 base 0 iv 0 ev 1 level q is_hp Hq
                ltac:(lia) ltac:(lia) ltac:(lia) ltac:(lia)) as Hlow.
  pose proof (exact_stat_monotone base 255 iv 31 ev 252 level 100 q is_hp Hq
                ltac:(lia) ltac:(lia) ltac:(lia) ltac:(lia)) as Hhigh.
  split.
  - assert (4 <= exact_stat 0 0 0 1 q is_hp)
      by (destruct Hm, is_hp; apply Z.leb_le; vm_compute; reflexivity).
    assert (exact_stat 255 31 252 100 q is_hp <= 714)
      by (destruct Hm, is_hp; apply Z.leb_le; vm_compute; reflexivity).
    lia.
  - intros ->. unfold exact_stat.
    assert (0 <= (2 * base + iv + ev / 4) * level / 100); [|lia].
    apply Z.div_pos; [|lia].
    assert (0 <= ev / 4) by (apply Z.div_pos; lia). nia.
Qed.

Lemma calc_stat_bounds_witness :
  exists s,
    calc_stat 255 31 252 100 1 true = Ok s /\
    4 <= s <= 714 /\ (true = true -> 100 + 10 <= s).
Proof.
  refine (calc_stat_bounds 255 31 252 100 1%float 1%Q true multiplier_neutral
            _ _ _ _); lia.
Defined.

(** X18.  With the IV held fixed, on the legal domain the loop over the EVs
    always returns; it finds the least EV of the grid that reproduces the
    observed value under the exact formula, and nothing when there is
    none. *)
Theorem back_calc_ev_least :
  forall observed base iv level m q is_hp,
    0 <= base <= 255 -> 0 <= iv <= 31 -> 1 <= level <= 100 ->
    nature_multiplier m q ->
    exists r,
      back_calc_ev observed base iv level m is_hp = Ok r /\
      match r with
      | Some ev =>
          ev_step ev /\ exact_stat base iv ev level q is_hp = observed /\
          forall ev', ev_step ev' ->
            exact_stat base iv ev' level q is_hp = observed -> ev <= ev'
      | None =>
          forall ev, ev_step ev -> exact_stat base iv ev level q is_hp <> observed
      end.
Proof.
  intros observed base iv level m q is_hp Hb Hiv Hl Hm.
  assert (Hexact : forall ev, ev_step ev ->
            calc_stat base iv ev level m is_hp
            = Ok (exact_stat base iv ev level q is_hp)).
  { intros ev Hev. apply (grid_exact base level m q is_hp iv ev Hb Hl Hm).
    split; assumption. }
  destruct (back_calc_ev_returns observed base iv level m is_hp) as [r Hrun].
  { intros ev Hev. eexists. apply Hexact, Hev. }
  exists r. split; [exact Hrun|]. destruct r as [ev|].
  - apply back_calc_ev_some in Hrun as (Hstep & Hcalc & Hleast).
    rewrite (Hexact ev Hstep) in Hcalc. split; [exact Hstep|].
    split; [congruence|]. intros ev' Hstep' Heq. apply Hleast; [exact Hstep'|].
    rewrite (Hexact ev' Hstep'), Heq. reflexivity.
  - intros ev Hstep Heq.
    apply (back_calc_ev_none _ _ _ _ _ _ Hrun ev Hstep).
    rewrite (Hexact ev Hstep), Heq. reflexivity.
Qed.

Lemma back_calc_ev_least_witness :
  exists r,
    back_calc_ev 80 50 31 50 1 false = Ok r /\
    match r with
    | Some ev =>
        ev_step ev /\ exact_stat 50 31 ev 50 1 false = 80 /\
        forall ev', ev_step ev' -> exact_stat 50 31 ev' 50 1 false = 80 -> ev <= ev'
    | None => forall ev, ev_step ev -> exact_stat 50 31 ev 50 1 false <> 80
    end.
Proof.
  refine (back_calc_ev_least 80 50 31 50 1%float 1%Q false _ _ _ multiplier_neutral);
    lia.
Defined.

(** X19.  The inference of [generate_set] cannot fail on a legal base stat
    and level: whatever nature was typed and whichever stat is solved, the
    multiplier looked up makes the formula exact and the solver return. *)
Theorem inference_returns :
  forall nature stat_key observed base level,
    0 <= base <= 255 -> 1 <= level <= 100 ->
    exists q r,
      nature_multiplier (get_nature_multiplier nature stat_key) q /\
      reverse_calc_iv_ev_for_stat observed base level
        (get_nature_multiplier nature stat_key) (String.eqb stat_key "hp") 31
        = Ok r /\
      forall iv ev, r = Some (iv, ev) ->
        exact_stat base iv ev level q (String.eqb stat_key "hp") = observed.
Proof.
  intros nature stat_key observed base level Hb Hl.
  destruct (multiplier_is_one_of_three nature stat_key) as [q Hm].
  destruct (reverse_calc_returns observed base level
              (get_nature_multiplier nature stat_key) (String.eqb stat_key "hp") 31
              (grid_returns base level _ q _ Hb Hl Hm)) as [r Hrun].
  exists q, r. split; [exact Hm|]. split; [exact Hrun|].
  intros iv ev ->. apply reverse_calc_some in Hrun as [[Hgrid Hcalc] _].
  rewrite (grid_exact base level _ q _ iv ev Hb Hl Hm Hgrid) in Hcalc. congruence.
Qed.

Lemma inference_returns_witness :
  exists q r,
    nature_multiplier (get_nature_multiplier (Some "Jolly"%string) "spe") q /\
    reverse_calc_iv_ev_for_stat 328 100 100
      (get_nature_multiplier (Some "Jolly"%string) "spe") (String.eqb "spe" "hp") 31
      = Ok r /\
    forall iv ev, r = Some (iv, ev) ->
      exact_stat 100 iv ev 100 q (String.eqb "spe" "hp") = 328.
Proof.
  refine (inference_returns (Some "Jolly"%string) "spe" 328 100 100 _ _); lia.
Defined.

(** ** More on the clamp *)

(** The table of a clamped table is well formed again. *)
Lemma shrunk_valid (evs0 evs : dict) :
  shrunk evs0 evs -> Forall (fun kv => 0 <= kv.2 /\ (4 | kv.2)) evs.
Proof.
  induction 1 as [|a b evs0 evs (_ & Hle & Hdiv) _ IH]; constructor;
    [split; [lia|exact Hdiv]|exact IH].
Qed.

Lemma py_sum_divisible (l : list Z) :
  Forall (fun v => (4 | v)) l -> (4 | py_sum l).
Proof.
  induction 1 as [|v l Hv _ IH]; [exists 0; reflexivity|].
  rewrite py_sum_cons. apply Z.divide_add_r; assumption.
Qed.

(** The loop stops at the first total that is not above 510. *)
Lemma clamp_loop_stops_early (evs0 : dict) (n : nat) :
  forall evs total,
    (Z.to_nat (total - 510) <= n)%nat ->
    NoDup evs.*1 -> shrunk evs0 evs -> total = py_sum evs.*2 -> 510 < total ->
    exists r, clamp_loop evs total = Ok r /\ shrunk evs0 r /\
              506 < py_sum r.*2 <= 510.
Proof.
  induction n as [|n IH]; intros evs total Hn Hnodup Hshrunk Htotal Hgt; [lia|].
  rewrite clamp_loop_while, Z.gtb_ltb.
  destruct (Z.ltb_spec 510 total) as [_|]; [|lia].
  destruct (clamp_turn_continues evs0 evs Hnodup Hshrunk)
    as (evs' & -> & Hnodup' & Hshrunk' & Hsum'); [lia|].
  destruct (Z.lt_ge_cases 510 (total - 4)) as [Hmore|Hdone].
  - apply IH; [lia|exact Hnodup'|exact Hshrunk'|lia|exact Hmore].
  - rewrite clamp_loop_while, Z.gtb_ltb.
    destruct (Z.ltb_spec 510 (total - 4)) as [|_]; [lia|].
    exists evs'. split; [reflexivity|]. split; [exact Hshrunk'|lia].
Qed.

(** X20.  A table over the budget is brought down to 508 exactly. *)
Theorem clamp_total_508 :
  forall evs : dict,
    NoDup evs.*1 ->
    Forall (fun kv => 0 <= kv.2 /\ (4 | kv.2)) evs ->
    510 < py_sum evs.*2 ->
    exists r, clamp_ev_distribution evs = Ok r /\ py_sum r.*2 = 508.
Proof.
  intros evs Hnodup Hvalid Hover. unfold clamp_ev_distribution.
  destruct (Z.leb_spec (py_sum evs.*2) 510) as [|_]; [lia|].
  destruct (clamp_loop_stops_early evs _ evs _ (Nat.le_refl _) Hnodup
              (shrunk_refl evs Hvalid) eq_refl Hover) as (r & Hrun & Hshrunk & Hsum).
  exists r. split; [exact Hrun|].
  assert (Hdiv : (4 | py_sum r.*2)).
  { apply py_sum_divisible. rewrite Forall_fmap.
    eapply Forall_impl; [exact (shrunk_valid _ _ Hshrunk)|]. cbn. tauto. }
  destruct Hdiv as [k Hk]. lia.
Qed.

Lemma three_maxed_valid :
  NoDup three_maxed.*1 /\ Forall (fun kv => 0 <= kv.2 /\ (4 | kv.2)) three_maxed.
Proof.
  split; [apply (bool_decide_unpack _); vm_compute; exact I|].
  unfold three_maxed. repeat constructor; cbn; try lia;
    first [exists 0; reflexivity | exists 63; reflexivity].
Defined.

Lemma clamp_total_508_witness :
  exists r, clamp_ev_distribution three_maxed = Ok r /\ py_sum r.*2 = 508.
Proof.
  refine (clamp_total_508 three_maxed (proj1 three_maxed_valid)
            (proj2 three_maxed_valid) _).
  vm_compute. reflexivity.
Defined.

Lemma clamp_keeps_shape (evs : dict) :
  NoDup evs.*1 ->
  Forall (fun kv => 0 <= kv.2 /\ (4 | kv.2)) evs ->
  exists r, clamp_ev_distribution evs = Ok r /\ shrunk evs r /\ py_sum r.*2 <= 510.
Proof.
  intros Hnodup Hvalid. unfold clamp_ev_distribution.
  destruct (Z.leb_spec (py_sum evs.*2) 510) as [Hle|Hgt].
  - exists evs. repeat split; [apply shrunk_refl, Hvalid|exact Hle].
  - apply (clamp_loop_invariant evs _ evs _ (Nat.le_refl _) Hnodup);
      [apply shrunk_refl, Hvalid|reflexivity].
Qed.

(** X21.  Clamping twice is clamping once. *)
Theorem clamp_idempotent :
  forall evs : dict,
    NoDup evs.*1 ->
    Forall (fun kv => 0 <= kv.2 /\ (4 | kv.2)) evs ->
    exists r,
      clamp_ev_distribution evs = Ok r /\ clamp_ev_distribution r = Ok r.
Proof.
  intros evs Hnodup Hvalid.
  destruct (clamp_keeps_shape evs Hnodup Hvalid) as (r & Hrun & _ & Hsum).
  exists r. split; [exact Hrun|]. unfold clamp_ev_distribution.
  destruct (Z.leb_spec (py_sum r.*2) 510) as [_|]; [reflexivity|lia].
Qed.

Lemma clamp_idempotent_witness :
  exists r,
    clamp_ev_distribution three_maxed = Ok r /\ clamp_ev_distribution r = Ok r.
Proof.
  exact (clamp_idempotent three_maxed (proj1 three_maxed_valid)
           (proj2 three_maxed_valid)).
Defined.

(** Each value of a table is at most the greatest. *)
Lemma greatest_ev_above (evs : dict) (kv : string * Z) :
  kv ∈ evs -> kv.2 <= greatest_ev evs.
Proof.
  induction evs as [|x evs IH]; intros Hin; [destruct (not_elem_of_nil _ Hin)|].
  rewrite greatest_ev_cons. apply elem_of_cons in Hin as [->|Hin]; [lia|].
  specialize (IH Hin). lia.
Qed.

Lemma over_budget_greatest (evs : dict) :
  Forall (fun kv => 0 <= kv.2 /\ (4 | kv.2)) evs ->
  0 < py_sum evs.*2 -> 4 <= greatest_ev evs.
Proof.
  intros Hvalid Hsum.
  destruct (Z.lt_ge_cases (greatest_ev evs) 4) as [Hsmall|]; [|assumption].
  assert (py_sum evs.*2 <= 0); [|lia].
  apply py_sum_nonpositive. rewrite Forall_fmap.
  rewrite Forall_forall in Hvalid. apply Forall_forall.
  intros kv Hkv. cbn. destruct (Hvalid kv Hkv) as [Hpos [k Hk]].
  pose proof (greatest_ev_above evs kv Hkv). lia.
Qed.

Lemma clamp_loop_iterates (evs0 : dict) (n : nat) :
  forall evs total,
    turns total = n ->
    NoDup evs.*1 -> shrunk evs0 evs -> total = py_sum evs.*2 ->
    clamp_loop evs total = Ok (Nat.iter n reduce_first_greatest evs).
Proof.
  unfold turns.
  induction n as [|n IH]; intros evs total Hn Hnodup Hshrunk Htotal;
    rewrite clamp_loop_while, Z.gtb_ltb;
    destruct (Z.ltb_spec 510 total) as [Hgt|Hle].
  - exfalso. assert (1 <= (total - 507) / 4) by (apply Z.div_le_lower_bound; lia).
    lia.
  - reflexivity.
  - rewrite (clamp_turn_refines evs Hnodup).
    2:{ apply over_budget_greatest; [exact (shrunk_valid _ _ Hshrunk)|lia]. }
    destruct (clamp_turn_continues evs0 evs Hnodup Hshrunk)
      as (evs' & Hturn & Hnodup' & Hshrunk' & Hsum'); [lia|].
    rewrite (clamp_turn_refines evs Hnodup) in Hturn.
    2:{ apply over_budget_greatest; [exact (shrunk_valid _ _ Hshrunk)|lia]. }
    injection Hturn as <-.
    rewrite Nat.iter_succ_r. apply IH; [|exact Hnodup'|exact Hshrunk'|lia].
    replace (total - 4 - 507) with ((total - 507) + (-1) * 4) by lia.
    rewrite Z.div_add by lia. lia.
  - exfalso. assert ((total - 507) / 4 < 1); [|lia].
    apply Z.div_lt_upper_bound; lia.
Qed.

(** X22.  The clamp is the reduction of its description, repeated: as many
    times as 4 goes into the excess over 510, rounded up, the first stat
    holding the greatest EV gives up 4. *)
Theorem clamp_is_repeated_reduction :
  forall evs : dict,
    NoDup evs.*1 ->
    Forall (fun kv => 0 <= kv.2 /\ (4 | kv.2)) evs ->
    clamp_ev_distribution evs
    = Ok (Nat.iter (Z.to_nat ((py_sum evs.*2 - 507) / 4)) reduce_first_greatest evs).
Proof.
  intros evs Hnodup Hvalid. unfold clamp_ev_distribution.
  destruct (Z.leb_spec (py_sum evs.*2) 510) as [Hle|Hgt].
  - assert ((py_sum evs.*2 - 507) / 4 < 1) by (apply Z.div_lt_upper_bound; lia).
    rewrite Z2Nat.nonpos by lia. reflexivity.
  - apply (clamp_loop_iterates evs); [reflexivity|exact Hnodup| |reflexivity].
    apply shrunk_refl, Hvalid.
Qed.

Lemma clamp_is_repeated_reduction_witness :
  clamp_ev_distribution three_maxed
  = Ok (Nat.iter (Z.to_nat ((py_sum three_maxed.*2 - 507) / 4))
          reduce_first_greatest three_maxed).
Proof.
  exact (clamp_is_repeated_reduction three_maxed (proj1 three_maxed_valid)
           (proj2 three_maxed_valid)).
Defined.

(** What a turn that goes on did: the first item holding the greatest
    value, which is above 0, lost 4 or fell to 0. *)
Lemma clamp_turn_continue_inv (evs evs' : dict) :
  NoDup evs.*1 -> clamp_turn evs = Continue evs' ->
  exists before s m after,
    evs = before ++ (s, m) :: after /\
    evs' = before ++ (s, Z.max 0 (m - 4)) :: after /\
    0 < m /\ greatest_ev evs = m.
Proof.
  intros Hnodup Hturn.
  destruct (find_max_spec evs)
    as [[Hfind _]|(before & s & m & after & Hfind & -> & Hm & Hbefore & Hafter)].
  - unfold clamp_turn in Hturn. rewrite Hfind in Hturn. discriminate Hturn.
  - assert (Hfresh : s ∉ before.*1).
    { rewrite fmap_app in Hnodup. apply NoDup_app in Hnodup as (_ & Hdisj & _).
      intros Hin. apply (Hdisj s Hin). left. }
    unfold clamp_turn in Hturn. rewrite Hfind in Hturn.
    destruct (Z.leb_spec m 0) as [|_]; [lia|].
    rewrite dict_get_middle, dict_set_middle in Hturn by exact Hfresh.
    injection Hturn as <-. exists before, s, m, after.
    repeat split; [exact Hm|].
    rewrite greatest_ev_app, greatest_ev_cons. cbn [snd].
    pose proof (greatest_ev_nonneg before).
    pose proof (greatest_ev_bound after m ltac:(lia) Hafter).
    assert (greatest_ev before <= m); [|lia].
    apply greatest_ev_bound; [lia|].
    eapply Forall_impl; [exact Hbefore|]. cbn. intros; lia.
Qed.

Lemma clamp_turn_goes_on (evs : dict) :
  NoDup evs.*1 -> 0 < py_sum evs.*2 ->
  exists evs',
    clamp_turn evs = Continue evs' /\ NoDup evs'.*1 /\
    py_sum evs.*2 - 4 <= py_sum evs'.*2.
Proof.
  intros Hnodup Hsum.
  destruct (find_max_spec evs)
    as [[_ Hall]|(before & s & m & after & Hfind & -> & Hm & _ & _)].
  - assert (py_sum evs.*2 <= 0); [|lia].
    apply py_sum_nonpositive. rewrite Forall_fmap. exact Hall.
  - assert (Hfresh : s ∉ before.*1).
    { rewrite fmap_app in Hnodup. apply NoDup_app in Hnodup as (_ & Hdisj & _).
      intros Hin. apply (Hdisj s Hin). left. }
    exists (before ++ (s, Z.max 0 (m - 4)) :: after).
    unfold clamp_turn. rewrite Hfind.
    destruct (Z.leb_spec m 0) as [|_]; [lia|].
    rewrite dict_get_middle, dict_set_middle by exact Hfresh.
    split; [reflexivity|]. split.
    + rewrite fmap_app in *. exact Hnodup.
    + rewrite !fmap_app, !py_sum_app. cbn [fmap list_fmap snd].
      rewrite !py_sum_cons. cbn. lia.
Qed.

(** The loop returns on every table, as the running total never exceeds
    the sum of the table. *)
Lemma clamp_loop_returns (n : nat) :
  forall evs total,
    (Z.to_nat (total - 510) <= n)%nat ->
    NoDup evs.*1 -> total <= py_sum evs.*2 ->
    returns (clamp_loop evs total).
Proof.
  induction n as [|n IH]; intros evs total Hn Hnodup Htotal;
    rewrite clamp_loop_while, Z.gtb_ltb;
    destruct (Z.ltb_spec 510 total) as [Hgt|Hle];
    try (eexists; reflexivity); [lia|].
  destruct (clamp_turn_goes_on evs Hnodup) as (evs' & -> & Hnodup' & Hsum'); [lia|].
  apply IH; [lia|exact Hnodup'|lia].
Qed.

(** What every turn keeps, the result of the loop has. *)
Lemma clamp_loop_keeps (P : dict -> Prop) :
  (forall evs evs', P evs -> clamp_turn evs = Continue evs' -> P evs') ->
  forall (n : nat) evs total r,
    (Z.to_nat (total - 510) <= n)%nat ->
    P evs -> clamp_loop evs total = Ok r -> P r.
Proof.
  intros Hstep. induction n as [|n IH]; intros evs total r Hn HP Hrun;
    rewrite clamp_loop_while, Z.gtb_ltb in Hrun;
    destruct (Z.ltb_spec 510 total) as [Hgt|Hle];
    try (injection Hrun as <-; exact HP); [lia|].
  destruct (clamp_turn evs) as [|evs'|e] eqn:Hturn.
  - injection Hrun as <-. exact HP.
  - apply (IH evs' (total - 4) r); [lia|eapply Hstep; eassumption|exact Hrun].
  - discriminate Hrun.
Qed.

Lemma clamp_keeps (P : dict -> Prop) (evs r : dict) :
  (forall evs evs', P evs -> clamp_turn evs = Continue evs' -> P evs') ->
  P evs -> clamp_ev_distribution evs = Ok r -> P r.
Proof.
  intros Hstep HP. unfold clamp_ev_distribution.
  destruct (py_sum evs.*2 <=? 510); [intros [= <-]; exact HP|].
  apply (clamp_loop_keeps P Hstep _ _ _ _ (Nat.le_refl _) HP).
Qed.

Lemma related_get (R : Z -> Z -> Prop) (evs0 evs : dict) (k : string) (v : Z) :
  Forall2 (fun a b => b.1 = a.1 /\ R a.2 b.2) evs0 evs ->
  dict_get evs0 k = Some v ->
  exists v', dict_get evs k = Some v' /\ R v v'.
Proof.
  induction 1 as [|[k0 v0] [k1 v1] evs0 evs (Hk & HR) _ IH]; cbn; [discriminate|].
  cbn in Hk, HR. subst k1.
  destruct (String.eqb k0 k); [|exact IH]. intros [= <-]. eauto.
Qed.

Lemma related_keys (R : Z -> Z -> Prop) (evs0 evs : dict) :
  Forall2 (fun a b => b.1 = a.1 /\ R a.2 b.2) evs0 evs -> evs.*1 = evs0.*1.
Proof.
  induction 1 as [|a b evs0 evs (Hk & _) _ IH]; [reflexivity|].
  cbn. rewrite Hk, IH. reflexivity.
Qed.

Lemma related_refl (R : Z -> Z -> Prop) (evs : dict) :
  (forall v, R v v) -> Forall2 (fun a b => b.1 = a.1 /\ R a.2 b.2) evs evs.
Proof. intros HR. induction evs; constructor; auto. Qed.

(** A turn changes one value and relates the tables if it relates the
    old and the new value. *)
Lemma related_turn (R : Z -> Z -> Prop) (evs0 before after : dict)
    (s : string) (m m' : Z) :
  (forall v, R v m -> R v m') ->
  Forall2 (fun a b => b.1 = a.1 /\ R a.2 b.2) evs0 (before ++ (s, m) :: after) ->
  Forall2 (fun a b => b.1 = a.1 /\ R a.2 b.2) evs0 (before ++ (s, m') :: after).
Proof.
  intros HR Hrel.
  apply Forall2_app_inv_r in Hrel as (before0 & rest0 & Hbefore & Hrest & ->).
  apply Forall2_cons_inv_r in Hrest as (a & after0 & (Hk & Hm) & Hafter & ->).
  apply Forall2_app; [exact Hbefore|]. constructor; [|exact Hafter].
  split; [exact Hk|]. apply HR, Hm.
Qed.

(** X23.  On every table with distinct keys, whatever the integers it
    holds, the clamp returns: the defensive [break] and the lookup never
    stop it.  The keys are kept, no value goes up, and a value moves
    no further down than to 0. *)
Theorem clamp_any_table :
  forall evs : dict,
    NoDup evs.*1 ->
    exists r,
      clamp_ev_distribution evs = Ok r /\
      r.*1 = evs.*1 /\
      forall k v, dict_get evs k = Some v ->
        exists v', dict_get r k = Some v' /\ Z.min v 0 <= v' <= v.
Proof.
  intros evs Hnodup.
  assert (Hret : returns (clamp_ev_distribution evs)).
  { unfold clamp_ev_distribution. destruct (py_sum evs.*2 <=? 510);
      [eexists; reflexivity|].
    apply (clamp_loop_returns _ _ _ (Nat.le_refl _) Hnodup). lia. }
  destruct Hret as [r Hrun]. exists r. split; [exact Hrun|].
  pose (R := fun v v' : Z => Z.min v 0 <= v' <= v).
  assert (Hrel : NoDup r.*1 /\
                 Forall2 (fun a b => b.1 = a.1 /\ R a.2 b.2) evs r).
  { apply (clamp_keeps
             (fun cur => NoDup cur.*1 /\
                         Forall2 (fun a b => b.1 = a.1 /\ R a.2 b.2) evs cur)
             evs r); [|split; [exact Hnodup|apply related_refl; unfold R; lia]
                     |exact Hrun].
    intros cur cur' [Hnd Hcur] Hturn.
    destruct (clamp_turn_continue_inv cur cur' Hnd Hturn)
      as (before & s & m & after & -> & -> & Hm & _).
    split; [rewrite fmap_app in *; exact Hnd|].
    eapply related_turn; [|exact Hcur]. unfold R. intros v Hv. lia. }
  destruct Hrel as [_ Hrel]. split; [exact (related_keys R _ _ Hrel)|].
  intros k v Hget. exact (related_get R _ _ k v Hrel Hget).
Qed.

Lemma clamp_any_table_witness :
  exists r,
    clamp_ev_distribution [("hp", 600); ("atk", 3); ("def", -8)]%string = Ok r /\
    r.*1 = [("hp", 600); ("atk", 3); ("def", -8)]%string.*1 /\
    forall k v,
      dict_get [("hp", 600); ("atk", 3); ("def", -8)]%string k = Some v ->
      exists v', dict_get r k = Some v' /\ Z.min v 0 <= v' <= v.
Proof.
  refine (clamp_any_table [("hp", 600); ("atk", 3); ("def", -8)]%string _).
  apply (bool_decide_unpack _). vm_compute. exact I.
Defined.

(** X24.  The reduction is even-handed.  In the clamped table a stat that
    gave something up holds no less than the greatest EV minus 4. *)
Theorem clamp_levels_from_the_top :
  forall evs : dict,
    NoDup evs.*1 ->
    Forall (fun kv => 0 <= kv.2 /\ (4 | kv.2)) evs ->
    exists r,
      clamp_ev_distribution evs = Ok r /\
      forall k v, dict_get evs k = Some v ->
        exists v', dict_get r k = Some v' /\
                   (v' = v \/ greatest_ev r - 4 <= v').
Proof.
  intros evs Hnodup Hvalid.
  destruct (clamp_keeps_shape evs Hnodup Hvalid) as (r & Hrun & _ & _).
  exists r. split; [exact Hrun|].
  pose (R := fun (g v v' : Z) => v' = v \/ g - 4 <= v').
  pose (P := fun cur : dict =>
               NoDup cur.*1 /\
               Forall (fun kv => 0 <= kv.2 /\ (4 | kv.2)) cur /\
               Forall2 (fun a b => b.1 = a.1 /\ R (greatest_ev cur) a.2 b.2) evs cur).
  assert (HP : P r).
  { apply (clamp_keeps P evs r); [|split; [exact Hnodup|split; [exact Hvalid|]]
                                  |exact Hrun].
    - intros cur cur' (Hnd & Hval & Hrel) Hturn.
      destruct (clamp_turn_continue_inv cur cur' Hnd Hturn)
        as (before & s & m & after & -> & -> & Hm & Hgreatest).
      assert (Hfour : 4 <= m).
      { apply Forall_app in Hval as [_ Hval]. apply Forall_cons in Hval as [[_ [k Hk]] _].
        cbn in Hk. lia. }
      rewrite Z.max_r by lia.
      assert (Hless : greatest_ev (before ++ (s, m - 4) :: after) <= m).
      { rewrite greatest_ev_app, greatest_ev_cons in Hgreatest |- *. cbn [snd] in *.
        lia. }
      split; [rewrite fmap_app in *; exact Hnd|]. split.
      + apply Forall_app in Hval as [Hb Hval]. apply Forall_cons in Hval as [[_ Hdiv] Ha].
        apply Forall_app. split; [exact Hb|]. constructor; [|exact Ha]. cbn in *.
        split; [lia|]. apply Z.divide_sub_r; [exact Hdiv|exists 1; lia].
      + rewrite Hgreatest in Hrel.
        apply (related_turn _ evs before after s m (m - 4)).
        * intros v _. right. lia.
        * eapply Forall2_impl; [exact Hrel|]. cbn. unfold R.
          intros a b [Hk [Heq|Hge]]; (split; [exact Hk|]); [left; exact Heq|right; lia].
    - apply related_refl. intros v. left. reflexivity. }
  destruct HP as (_ & _ & Hrel). intros k v Hget.
  exact (related_get _ _ _ k v Hrel Hget).
Qed.

Lemma clamp_levels_from_the_top_witness :
  exists r,
    clamp_ev_distribution three_maxed = Ok r /\
    forall k v, dict_get three_maxed k = Some v ->
      exists v', dict_get r k = Some v' /\ (v' = v \/ greatest_ev r - 4 <= v').
Proof.
  exact (clamp_levels_from_the_top three_maxed (proj1 three_maxed_valid)
           (proj2 three_maxed_valid)).
Defined.

Lemma inferred_ev_on_grid (v : Z) : inferred_ev v -> ev_step v.
Proof.
  intros [->|[(observed & base & level & m & is_hp & max_iv & iv & Hrun)
             |(observed & base & iv & level & m & is_hp & Hrun)]].
  - exists 0. lia.
  - apply reverse_calc_some in Hrun as [[[_ Hstep] _] _]. exact Hstep.
  - apply back_calc_ev_some in Hrun as [Hstep _]. exact Hstep.
Qed.

(** X25.  A table of inferred EVs is one the clamp accepts; what comes out
    totals 510 at most, each value a multiple of 4 from 0 to 252. *)
Theorem inferred_evs_clamped :
  forall evs : dict,
    NoDup evs.*1 ->
    Forall (fun kv => inferred_ev kv.2) evs ->
    exists r,
      clamp_ev_distribution evs = Ok r /\
      r.*1 = evs.*1 /\
      py_sum r.*2 <= 510 /\
      Forall (fun kv => 0 <= kv.2 <= 252 /\ (4 | kv.2)) r.
Proof.
  intros evs Hnodup Hinferred.
  assert (Hgrid : Forall (fun kv => 0 <= kv.2 <= 252 /\ (4 | kv.2)) evs).
  { eapply Forall_impl; [exact Hinferred|]. cbn. intros kv Hkv.
    apply inferred_ev_on_grid in Hkv as (k & Hk & ->).
    split; [lia|]. exists k. lia. }
  destruct (clamp_keeps_shape evs Hnodup) as (r & Hrun & Hshrunk & Hsum).
  { eapply Forall_impl; [exact Hgrid|]. cbn. intros kv [Hr Hd]. split; [lia|exact Hd]. }
  exists r. split; [exact Hrun|]. split; [exact (shrunk_keys _ _ Hshrunk)|].
  split; [exact Hsum|].
  clear Hrun Hsum Hinferred Hnodup.
  induction Hshrunk as [|a b evs r (_ & Hle & Hdiv) _ IH]; [constructor|].
  apply Forall_cons in Hgrid as [[Ha _] Hgrid].
  constructor; [split; [lia|exact Hdiv]|exact (IH Hgrid)].
Qed.

Lemma inferred_evs_clamped_witness :
  exists r,
    clamp_ev_distribution [("hp", 0); ("atk", 76)]%string = Ok r /\
    r.*1 = [("hp", 0); ("atk", 76)]%string.*1 /\
    py_sum r.*2 <= 510 /\
    Forall (fun kv => 0 <= kv.2 <= 252 /\ (4 | kv.2)) r.
Proof.
  refine (inferred_evs_clamped [("hp", 0); ("atk", 76)]%string _ _).
  - apply (bool_decide_unpack _). vm_compute. exact I.
  - constructor; [left; reflexivity|]. constructor; [|constructor].
    right. left. exists 80, 50, 50, 1%float, false, 31, 31.
    vm_compute. reflexivity.
Defined.
